(** * Contract-test helpers of the transactions API suite

    A shallow embedding of the three helpers of [TestTransactionsAPI]
    (tests/test_transactions_api.py): [make_request],
    [validate_transaction_structure] and [validate_transaction_ordering],
    together with the [transaction_schema] table they use.

    Python dictionaries with string keys are finite maps, Python values that
    can come out of a JSON body (or be passed as keyword arguments) are the
    type [value], and the code that logs and raises runs in a small
    state-and-exception monad. *)

From Stdlib Require Import ZArith QArith String Ascii List Lia.
From stdpp Require Import gmap strings list fin_maps.

Local Set Warnings "-register-all".
Local Open Scope Z_scope.
Local Open Scope string_scope.

(** ** Python values *)

(** A Python [float]: a finite value (kept as the rational it denotes) or one
    of the three non-finite values that [json] accepts. *)
Inductive pyfloat : Type :=
| Finite (q : Q)
| Infinite (negative : bool)
| NaN.

(** The values a decoded JSON document is made of; keyword arguments of the
    request helper range over the same type. *)
Inductive value : Type :=
| VNone
| VBool (b : bool)
| VInt (n : Z)
| VFloat (x : pyfloat)
| VStr (s : string)
| VList (l : list value)
| VDict (d : gmap string value).

(** ** Strings *)

(** [str(b)] for a boolean. *)
Definition str_bool (b : bool) : string :=
  if b then "True" else "False".

Definition ascii_lower (c : ascii) : ascii :=
  let n := N_of_ascii c in
  if ((65 <=? n) && (n <=? 90))%N then ascii_of_N (n + 32) else c.

(** [s.lower()] on ASCII text. *)
Fixpoint lower (s : string) : string :=
  match s with
  | EmptyString => EmptyString
  | String c rest => String (ascii_lower c) (lower rest)
  end.

(** [s.replace('Z', '+00:00')]: every occurrence of the one-character
    pattern is replaced, not only a trailing one. *)
Fixpoint replace_Z (s : string) : string :=
  match s with
  | EmptyString => EmptyString
  | String c rest =>
      if Ascii.eqb c "Z"%char
      then "+00:00" ++ replace_Z rest
      else String c (replace_Z rest)
  end.

(** [v == s] for a string literal [s]: only an equal [str] compares equal. *)
Definition py_eq_str (v : value) (s : string) : bool :=
  match v with
  | VStr s' => String.eqb s' s
  | _ => false
  end.

(** ** Effects: the log, the list object, exceptions *)

(** A violated keyword of the schema, as [jsonschema] reports it: the
    offending property (when there is one), the instance and the bound. *)
Inductive validation_error : Type :=
| NotOfType (property : option string) (instance : value)
| MissingRequired (property : string)
| NotInEnum (property : string) (instance : value) (allowed : list string)
| BelowMinimum (property : string) (instance : value) (minimum : Z)
| AboveMaximum (property : string) (instance : value) (maximum : Z)
| AdditionalProperties (unexpected : list string).

Inductive exn : Type :=
| AssertionError (msg : string)
| KeyError (key : string)
| IndexError
| TypeError
| AttributeError
| ValueError
| ValidationError (e : validation_error)
| Failed (msg : string).

(** A line handed to the process-wide logger. *)
Inductive log_record : Type :=
| LogInfo (msg : string)
| LogError (msg : string).

(** What the helpers can observe and change: the lines logged so far and the
    list object the [transactions] argument refers to. *)
Record world : Type := World {
  logged : list log_record;
  transactions : list value
}.

Inductive result (A : Type) : Type :=
| Return (a : A)
| Raise (e : exn).
Arguments Return {A} a.
Arguments Raise {A} e.

Definition M (A : Type) : Type := world → result A * world.

Definition ret {A} (a : A) : M A := λ w, (Return a, w).

Definition raise {A} (e : exn) : M A := λ w, (Raise e, w).

(** Sequencing: an exception in the first statement skips the rest. *)
Definition bind {A B} (k : A → M B) (m : M A) : M B :=
  λ w, match m w with
       | (Return a, w') => k a w'
       | (Raise e, w') => (Raise e, w')
       end.

#[global] Instance M_ret : MRet M := @ret.
#[global] Instance M_bind : MBind M := @bind.

(** [try: body except <selected> as e: handler e]; [handler] answers [None]
    for the exceptions the clause does not name. *)
Definition try_except {A} (body : M A) (handler : exn → option (M A)) : M A :=
  λ w, match body w with
       | (Return a, w') => (Return a, w')
       | (Raise e, w') =>
           match handler e with
           | Some h => h w'
           | None => (Raise e, w')
           end
       end.

(** [for x in xs: body x] *)
Fixpoint for_each {A} (xs : list A) (body : A → M unit) : M unit :=
  match xs with
  | [] => ret tt
  | x :: rest => body x;; for_each rest body
  end.

(** [range(n)] *)
Definition range (n : Z) : list nat := seq 0 (Z.to_nat n).

(** [len(l)] *)
Definition len {A} (l : list A) : Z := Z.of_nat (length l).

(** [assert b] *)
Definition assert_ (b : bool) : M unit :=
  if b then ret tt else raise (AssertionError "").

(** [log.error(msg)] *)
Definition log_error (msg : string) : M unit :=
  λ w, (Return tt, World (logged w ++ [LogError msg]) (transactions w)).

(** Evaluating the name [transactions]. *)
Definition get_transactions : M (list value) :=
  λ w, (Return (transactions w), w).

(** [v[key]] for a string key: a [dict] answers or raises [KeyError], any
    other value raises [TypeError]. *)
Definition getitem (v : value) (key : string) : M value :=
  match v with
  | VDict d =>
      match d !! key with
      | Some x => ret x
      | None => raise (KeyError key)
      end
  | _ => raise TypeError
  end.

(** [l[i]] for a list and an index in [range]. *)
Definition getitem_index (l : list value) (i : nat) : M value :=
  match l !! i with
  | Some x => ret x
  | None => raise IndexError
  end.

(** [v.replace('Z', '+00:00')]: only [str] has the method. *)
Definition replace_call (v : value) : M string :=
  match v with
  | VStr s => ret (replace_Z s)
  | _ => raise AttributeError
  end.

(** ** Instants *)

(** A [datetime]: its wall-clock reading in microseconds since the start of
    year 1, and its UTC offset in microseconds when it is aware. *)
Record datetime : Type := Datetime {
  wall : Z;
  utcoffset : option Z
}.

(** [t1 >= t2].  Two naive readings compare by wall clock, two aware ones by
    the instant they denote, and a naive one does not compare with an aware
    one ([None], a [TypeError]). *)
Definition datetime_ge (t1 t2 : datetime) : option bool :=
  match utcoffset t1, utcoffset t2 with
  | None, None => Some (wall t2 <=? wall t1)%Z
  | Some o1, Some o2 => Some (wall t2 - o2 <=? wall t1 - o1)%Z
  | _, _ => None
  end.

Definition ge_call (t1 t2 : datetime) : M bool :=
  match datetime_ge t1 t2 with
  | Some b => ret b
  | None => raise TypeError
  end.

(** ** RequestBuilder: [make_request] *)

(** What [requests.get] is called with. *)
Record request : Type := Request {
  url : option string;
  headers : gmap string (option string);
  params : gmap string value
}.

(** The body of the normalisation loop for one [(key, value)] item:
    [isinstance(value, bool)] holds of [VBool] only, and then the key is
    re-bound to [str(value).lower()]. *)
Definition normalize_item (params : gmap string value) (item : string * value)
  : gmap string value :=
  let '(key, v) := item in
  match v with
  | VBool b => <[key := VStr (lower (str_bool b))]> params
  | _ => params
  end.

(** [for key, value in params.items(): ...].  The loop only re-binds the key
    it is visiting, so the items it sees are those of the dictionary at loop
    entry. *)
Definition normalize_params (params : gmap string value) : gmap string value :=
  foldl normalize_item params (map_to_list params).

Section MakeRequest.
(** Module-level configuration read from the environment. *)
Variable BASE_URL : option string.
Variable HEADERS : gmap string (option string).

Definition make_request (customer_id : value) (kwargs : gmap string value)
  : request :=
  let params := <["customerId" := customer_id]> kwargs in
  let params := normalize_params params in
  Request BASE_URL HEADERS params.

End MakeRequest.

(** What the loop leaves bound to a key whose value was [v]. *)
Definition normalized (v : value) : value :=
  match v with
  | VBool b => VStr (if b then "true" else "false")
  | _ => v
  end.


(** ** SchemaValidator: [transaction_schema] and [validate_transaction_structure] *)

(** The JSON Schema type names the table uses. *)
Inductive type_name : Type :=
| T_string | T_number | T_integer | T_null | T_object | T_array | T_boolean.

(** The schema of one property: the keywords that occur in the table. *)
Record property_schema : Type := PropertySchema {
  p_type : list type_name;
  p_format : option string;
  p_enum : option (list string);
  p_minimum : option Z;
  p_maximum : option Z
}.

Record object_schema : Type := ObjectSchema {
  o_type : type_name;
  required : list string;
  properties : list (string * property_schema);
  additionalProperties : bool
}.

Definition of_type (ts : list type_name) : property_schema :=
  PropertySchema ts None None None None.

Definition transaction_schema : object_schema := {|
  o_type := T_object;
  required := [
    "transactionId"; "amount"; "currency"; "merchantName"; "timestamp";
    "type"; "subType"; "status"; "categoryId"; "description"
  ];
  properties := [
    ("transactionId", of_type [T_string]);
    ("amount", of_type [T_number]);
    ("currency", of_type [T_string]);
    ("merchantName", of_type [T_string; T_null]);
    ("timestamp", PropertySchema [T_string] (Some "date-time") None None None);
    ("type", PropertySchema [T_string] None (Some ["Debit"; "Credit"]) None None);
    ("subType", of_type [T_string]);
    ("status", PropertySchema [T_string] None (Some ["Pending"; "Booked"]) None None);
    ("categoryId", PropertySchema [T_integer] None None (Some 1) (Some 20));
    ("description", of_type [T_string])
  ];
  additionalProperties := false
|}.

(** A finite float with no fractional part. *)
Definition is_integral (q : Q) : bool :=
  (Qnum q mod Zpos (Qden q) =? 0)%Z.

(** The type checker of the current drafts: [bool] is neither a number nor
    an integer, and a float without fractional part is an integer. *)
Definition is_type (v : value) (t : type_name) : bool :=
  match t, v with
  | T_string, VStr _ => true
  | T_number, VInt _ => true
  | T_number, VFloat _ => true
  | T_integer, VInt _ => true
  | T_integer, VFloat (Finite q) => is_integral q
  | T_null, VNone => true
  | T_object, VDict _ => true
  | T_array, VList _ => true
  | T_boolean, VBool _ => true
  | _, _ => false
  end.

(** [instance < bound] on numbers. *)
Definition number_lt (v : value) (bound : Z) : bool :=
  match v with
  | VInt n => (n <? bound)%Z
  | VFloat (Finite q) => (Qnum q <? bound * Zpos (Qden q))%Z
  | VFloat (Infinite negative) => negative
  | _ => false
  end.

(** [instance > bound] on numbers. *)
Definition number_gt (v : value) (bound : Z) : bool :=
  match v with
  | VInt n => (bound <? n)%Z
  | VFloat (Finite q) => (bound * Zpos (Qden q) <? Qnum q)%Z
  | VFloat (Infinite negative) => negb negative
  | _ => false
  end.

(** The errors of one property value against its schema, keyword by keyword.
    No format checker is passed to [validate], so [format] yields none. *)
Definition property_errors (name : string) (sub : property_schema) (v : value)
  : list validation_error :=
  (if existsb (is_type v) (p_type sub) then [] else [NotOfType (Some name) v])
  ++ match p_enum sub with
     | Some allowed =>
         if existsb (py_eq_str v) allowed then [] else [NotInEnum name v allowed]
     | None => []
     end
  ++ match p_minimum sub with
     | Some m =>
         if is_type v T_number && number_lt v m then [BelowMinimum name v m] else []
     | None => []
     end
  ++ match p_maximum sub with
     | Some m =>
         if is_type v T_number && number_gt v m then [AboveMaximum name v m] else []
     | None => []
     end.

(** [required]: each listed property that the object lacks. *)
Definition required_errors (names : list string) (d : gmap string value)
  : list validation_error :=
  flat_map (λ name, match d !! name with
                    | Some _ => []
                    | None => [MissingRequired name]
                    end) names.

(** [properties]: each listed property that the object has is checked. *)
Definition properties_errors (props : list (string * property_schema))
    (d : gmap string value) : list validation_error :=
  flat_map (λ '(name, sub), match d !! name with
                            | Some v => property_errors name sub v
                            | None => []
                            end) props.

(** The keys of the object that [properties] does not list. *)
Definition extras (props : list (string * property_schema))
    (d : gmap string value) : list string :=
  filter (λ k, k ∉ props.*1) (map_to_list d).*1.

(** [additionalProperties: False] *)
Definition additional_errors (allowed : bool)
    (props : list (string * property_schema)) (d : gmap string value)
  : list validation_error :=
  if allowed then []
  else match extras props d with
       | [] => []
       | unexpected => [AdditionalProperties unexpected]
       end.

(** All errors of an instance; the object keywords apply to objects only. *)
Definition iter_errors (schema : object_schema) (instance : value)
  : list validation_error :=
  (if is_type instance (o_type schema) then [] else [NotOfType None instance])
  ++ match instance with
     | VDict d =>
         required_errors (required schema) d
         ++ properties_errors (properties schema) d
         ++ additional_errors (additionalProperties schema) (properties schema) d
     | _ => []
     end.

Section SchemaValidator.

(** The library's choice of the error to raise among those found, and its
    rendering of an error as text. *)
Variable best_match : validation_error → list validation_error → validation_error.
Variable message : validation_error → string.

(** [jsonschema.validate(instance=..., schema=...)] *)
Definition validate (instance : value) (schema : object_schema) : M unit :=
  match iter_errors schema instance with
  | [] => ret tt
  | e :: es => raise (ValidationError (best_match e es))
  end.

(** [pytest.fail(msg)] *)
Definition pytest_fail (msg : string) : M unit := raise (Failed msg).

Definition validate_transaction_structure (transaction : value) : M unit :=
  try_except (validate transaction transaction_schema) (λ e,
    match e with
    | ValidationError err =>
        Some (log_error ("Schema validation failed: " ++ message err);;
              pytest_fail ("Schema validation error: " ++ message err))
    | _ => None
    end).

End SchemaValidator.

(** ** OrderingValidator: [validate_transaction_ordering] *)

Section OrderingValidator.

(** [datetime.fromisoformat]: [None] stands for its [ValueError]. *)
Variable fromisoformat : string → option datetime.

Definition fromisoformat_call (s : string) : M datetime :=
  match fromisoformat s with
  | Some t => ret t
  | None => raise ValueError
  end.

(** [datetime.fromisoformat(t['timestamp'].replace('Z', '+00:00'))] *)
Definition parsed_timestamp (t : value) : M datetime :=
  ts ← getitem t "timestamp";
  s ← replace_call ts;
  fromisoformat_call s.

(** [[t for t in ts if t['status'] == status]] *)
Fixpoint with_status (status : string) (ts : list value) : M (list value) :=
  match ts with
  | [] => ret []
  | t :: rest =>
      st ← getitem t "status";
      kept ← with_status status rest;
      ret (if py_eq_str st status then t :: kept else kept)
  end.

(** Pending transactions must appear before any Booked ones. *)
Definition placement_check (pending : list value) : M unit :=
  for_each (range (len pending)) (λ i,
    ts ← get_transactions;
    t ← getitem_index ts i;
    st ← getitem t "status";
    assert_ (py_eq_str st "Pending")).

(** The comparison of [group[i]] with [group[i + 1]]. *)
Definition descending_at (group : list value) (i : nat) : M unit :=
  a ← getitem_index group i;
  t1 ← parsed_timestamp a;
  b ← getitem_index group (i + 1);
  t2 ← parsed_timestamp b;
  ok ← ge_call t1 t2;
  assert_ ok.

(** Within each group, timestamps must be in descending order. *)
Definition monotonicity_check (groups : list (list value)) : M unit :=
  for_each groups (λ group,
    for_each (range (len group - 1)) (descending_at group)).

(** The body of the [try] block. *)
Definition ordering_checks : M unit :=
  ts ← get_transactions;
  if (len ts <=? 1)%Z then ret tt
  else
    ts ← get_transactions;
    pending ← with_status "Pending" ts;
    ts ← get_transactions;
    booked ← with_status "Booked" ts;
    placement_check pending;;
    monotonicity_check [pending; booked].

Definition validate_transaction_ordering : M unit :=
  try_except ordering_checks (λ e,
    match e with
    | AssertionError msg =>
        Some (log_error ("❌ Assertion failed " ++ msg);; raise e)
    | _ => None
    end).

End OrderingValidator.

(** ** A timestamp reader to run the validators with

    The theorems below hold for any reader.  To evaluate the helpers on
    concrete lists this one reads the two fixed-width forms
    [YYYY-MM-DD?HH:MM:SS] and [YYYY-MM-DD?HH:MM:SS±HH:MM] (any separator
    between date and time) and rejects every other string. *)

Definition digit (c : ascii) : option Z :=
  let n := N_of_ascii c in
  if ((48 <=? n) && (n <=? 57))%N then Some (Z.of_N n - 48)%Z else None.

Fixpoint digits (acc : Z) (s : string) : option Z :=
  match s with
  | EmptyString => Some acc
  | String c rest =>
      match digit c with
      | Some d => digits (10 * acc + d) rest
      | None => None
      end
  end.

(** The decimal number written in [s[start : start + width]]. *)
Definition field (start width : nat) (s : string) : option Z :=
  digits 0 (substring start width s).

Definition char_at (i : nat) (s : string) : option ascii := String.get i s.

Definition is_leap (y : Z) : bool :=
  ((y mod 4 =? 0) && (negb (y mod 100 =? 0) || (y mod 400 =? 0)))%Z.

Definition days_in_month (y m : Z) : Z :=
  if (m =? 2)%Z then (if is_leap y then 29 else 28)
  else if ((m =? 4) || (m =? 6) || (m =? 9) || (m =? 11))%Z then 30
  else 31.

Definition days_before_month (y m : Z) : Z :=
  fold_right Z.add 0 (map (days_in_month y) (map Z.of_nat (seq 1 (Z.to_nat (m - 1))))).

Definition days_before_year (y : Z) : Z :=
  let p := (y - 1)%Z in (p * 365 + p / 4 - p / 100 + p / 400)%Z.

(** The proleptic Gregorian ordinal of a date, day 1 being 0001-01-01. *)
Definition ordinal (y m d : Z) : Z :=
  (days_before_year y + days_before_month y m + d)%Z.

Definition microseconds (days hh mm ss : Z) : Z :=
  ((((days * 24 + hh) * 60 + mm) * 60 + ss) * 1000000)%Z.

Definition read_wall (s : string) : option Z :=
  y ← field 0 4 s; m ← field 5 2 s; d ← field 8 2 s;
  hh ← field 11 2 s; mm ← field 14 2 s; ss ← field 17 2 s;
  if bool_decide (char_at 4 s = Some "-"%char ∧ char_at 7 s = Some "-"%char
                  ∧ char_at 13 s = Some ":"%char ∧ char_at 16 s = Some ":"%char
                  ∧ (1 ≤ y)%Z ∧ (1 ≤ m ≤ 12)%Z ∧ (1 ≤ d ≤ days_in_month y m)%Z
                  ∧ (hh < 24)%Z ∧ (mm < 60)%Z ∧ (ss < 60)%Z)
  then Some (microseconds (ordinal y m d) hh mm ss)
  else None.

Definition read_offset (s : string) : option Z :=
  hh ← field 20 2 s; mm ← field 23 2 s;
  sign ← match char_at 19 s with
         | Some "+"%char => Some 1%Z
         | Some "-"%char => Some (-1)%Z
         | _ => None
         end;
  if bool_decide (char_at 22 s = Some ":"%char ∧ (hh < 24)%Z ∧ (mm < 60)%Z)
  then Some (sign * microseconds 0 hh mm 0)%Z
  else None.

Definition read_timestamp (s : string) : option datetime :=
  match String.length s with
  | 19%nat => w ← read_wall s; Some (Datetime w None)
  | 25%nat => w ← read_wall s; o ← read_offset s; Some (Datetime w (Some o))
  | _ => None
  end.

(** ** Sample records *)

(** A record with just the two fields the ordering check reads. *)
Definition entry (status timestamp : string) : value :=
  VDict {[ "status" := VStr status; "timestamp" := VStr timestamp ]}.

(** A record that satisfies the schema. *)
Definition sample_transaction : value :=
  VDict (list_to_map [
    ("transactionId", VStr "tx-0001");
    ("amount", VFloat (Finite (-1299 # 100)));
    ("currency", VStr "SEK");
    ("merchantName", VNone);
    ("timestamp", VStr "2025-06-04T10:15:00Z");
    ("type", VStr "Debit");
    ("subType", VStr "CardPayment");
    ("status", VStr "Booked");
    ("categoryId", VInt 11);
    ("description", VStr "Groceries")
  ]).

Definition first_error (e : validation_error) (es : list validation_error)
  : validation_error := e.

Definition no_message (e : validation_error) : string := "".

Definition empty_world (ts : list value) : world := World [] ts.

(** ** Read-only computations *)

(** A computation that leaves the log and the list object as they are. *)
Definition preserves {A} (m : M A) : Prop :=
  ∀ w r w', m w = (r, w') → w' = w.

(** ** Vocabulary of the ordering contract *)

(** The record is an object whose [status] field is the string [s]. *)
Definition has_status (s : string) (t : value) : Prop :=
  ∃ d, t = VDict d ∧ d !! "status" = Some (VStr s).

(** The record is an object that has a [status] field at all. *)
Definition has_status_field (t : value) : Prop :=
  ∃ d st, t = VDict d ∧ d !! "status" = Some st.

(** The same as a test: what [t['status'] == s] evaluates to on a record
    that has the field. *)
Definition status_is (s : string) (t : value) : bool :=
  match t with
  | VDict d =>
      match d !! "status" with
      | Some st => py_eq_str st s
      | None => false
      end
  | _ => false
  end.

(** The elements with a given status, in their original order. *)
Definition subsequence (s : string) (ts : list value) : list value :=
  List.filter (status_is s) ts.

(** Some Booked element sits at an earlier index than some Pending one. *)
Definition booked_before_pending (ts : list value) : Prop :=
  ∃ i j a b, (i < j)%nat ∧ ts !! i = Some a ∧ ts !! j = Some b
             ∧ has_status "Booked" a ∧ has_status "Pending" b.

(** The Pending elements occupy a prefix of the list. *)
Definition pending_prefix (ts : list value) : Prop :=
  ∃ ps bs, ts = (ps ++ bs)%list ∧ Forall (has_status "Pending") ps
           ∧ Forall (has_status "Booked") bs.

(** The instant a record's timestamp denotes: the [timestamp] field is a
    string and reads, after the replacement, as [t]. *)
Definition timestamp_reads (fromisoformat : string → option datetime)
    (x : value) (t : datetime) : Prop :=
  ∃ d s, x = VDict d ∧ d !! "timestamp" = Some (VStr s)
         ∧ fromisoformat (replace_Z s) = Some t.

(** [t1] is not earlier than [t2]: both are naive and compare by wall clock,
    or both are aware and compare as instants. *)
Definition not_earlier (t1 t2 : datetime) : Prop :=
  match utcoffset t1, utcoffset t2 with
  | None, None => (wall t2 ≤ wall t1)%Z
  | Some o1, Some o2 => (wall t2 - o2 ≤ wall t1 - o1)%Z
  | _, _ => False
  end.

(** Every two consecutive elements have non-increasing timestamps. *)
Definition non_increasing (fromisoformat : string → option datetime)
    (group : list value) : Prop :=
  ∀ i a b, group !! i = Some a → group !! S i = Some b →
    ∃ t1 t2, timestamp_reads fromisoformat a t1
             ∧ timestamp_reads fromisoformat b t2
             ∧ not_earlier t1 t2.

(** ** Vocabulary of the schema contract *)

(** The integer a value denotes for the schema: an [int], or a finite float
    without fractional part. *)
Definition integer_value (v : value) : option Z :=
  match v with
  | VInt n => Some n
  | VFloat (Finite q) =>
      if is_integral q then Some (Qnum q / Zpos (Qden q))%Z else None
  | _ => None
  end.

(** The validator returns normally. *)
Definition accepted (outcome : result () * world) : Prop :=
  outcome.1 = Return ().

(** The validator reports a validation failure: it logs the message of some
    schema error and fails the test with it, from the world [w]. *)
Definition validation_failure (message : validation_error → string)
    (w : world) (outcome : result () * world) : Prop :=
  ∃ err,
    outcome =
      (Raise (Failed ("Schema validation error: " ++ message err)),
       World (logged w ++ [LogError ("Schema validation failed: " ++ message err)])
             (transactions w)).

(** ** Further vocabulary *)

(** The Pending elements come first: a run of Pending elements followed by
    elements that are not Pending (Booked or anything else). *)
Definition pending_first (ts : list value) : Prop :=
  ∃ ps rest, ts = (ps ++ rest)%list ∧ Forall (has_status "Pending") ps
             ∧ Forall (λ t, ¬ has_status "Pending" t) rest.

(** Some element that is not Pending sits before a Pending one. *)
Definition misplaced (ts : list value) : Prop :=
  ∃ i j a b, (i < j)%nat ∧ ts !! i = Some a ∧ ts !! j = Some b
             ∧ ¬ has_status "Pending" a ∧ has_status "Pending" b.

(** The line the [except AssertionError] clause of the ordering validator
    writes. *)
Definition assertion_line (msg : string) : log_record :=
  LogError ("❌ Assertion failed " ++ msg).

(** The ten field names of the schema. *)
Definition field_names : list string :=
  ["transactionId"; "amount"; "currency"; "merchantName"; "timestamp";
   "type"; "subType"; "status"; "categoryId"; "description"].

(** What the schema table asks of an object, field by field. *)
Definition conforms (d : gmap string value) : Prop :=
  (∀ k, is_Some (d !! k) ↔ k ∈ field_names)
  ∧ (∃ s, d !! "transactionId" = Some (VStr s))
  ∧ (∃ v, d !! "amount" = Some v ∧ is_type v T_number = true)
  ∧ (∃ s, d !! "currency" = Some (VStr s))
  ∧ (d !! "merchantName" = Some VNone ∨ ∃ s, d !! "merchantName" = Some (VStr s))
  ∧ (∃ s, d !! "timestamp" = Some (VStr s))
  ∧ (d !! "type" = Some (VStr "Debit") ∨ d !! "type" = Some (VStr "Credit"))
  ∧ (∃ s, d !! "subType" = Some (VStr s))
  ∧ (d !! "status" = Some (VStr "Pending") ∨ d !! "status" = Some (VStr "Booked"))
  ∧ (∃ v n, d !! "categoryId" = Some v ∧ integer_value v = Some n ∧ (1 ≤ n ≤ 20)%Z)
  ∧ (∃ s, d !! "description" = Some (VStr s)).

(** The exceptions that the ordering validator can still raise on records
    that passed the schema. *)
Definition ordering_exception (e : exn) : Prop :=
  e = AssertionError "" ∨ e = ValueError ∨ e = TypeError.

(** An outcome that is a normal return or one of the exceptions in [P]. *)
Definition outcome_in {A} (P : exn → Prop) (outcome : result A * world) : Prop :=
  match outcome.1 with
  | Return _ => True
  | Raise e => P e
  end.

(** ** TestSuite: the test cases that call the helpers *)

(** What the tests read of a [requests.Response]: the status code, the
    [content-type] header ([None] when absent), and the decoded body
    ([None] when the body is not JSON and [json()] raises). *)
Record response : Type := Response {
  status_code : Z;
  content_type : option string;
  json_body : option value
}.

Definition CUSTOMERS : gmap string string := {[
  "Customer1" := "b3c8f5d2-4a6e-4c0b-9f7d-8f1c2e3a4b5c";
  "Customer2" := "746c51bc-bdb9-44d2-9a3e-c4715bc91ee4";
  "Customer3" := "5723a60b-b7f5-4259-b670-43bd3be1cf90";
  "Customer4" := "13ef28a8-9488-4d19-ba2f-3ff44912c5e8";
  "Customer5" := "0828a547-f4bf-433a-b3ef-0dc70d6bad8a"
]}.

(** [CUSTOMERS[key]] *)
Definition customers_getitem (key : string) : M value :=
  match CUSTOMERS !! key with
  | Some customer_id => ret (VStr customer_id)
  | None => raise (KeyError key)
  end.

(** [log.info(msg)] *)
Definition log_info (msg : string) : M unit :=
  λ w, (Return tt, World (logged w ++ [LogInfo msg]) (transactions w)).

(** [response.json()]: [ValueError] (its subclass [JSONDecodeError]) when
    the body does not decode. *)
Definition json_call (r : response) : M value :=
  match json_body r with
  | Some data => ret data
  | None => raise ValueError
  end.

(** [assert isinstance(data, list)], after which [data] is used as a list. *)
Definition assert_isinstance_list (data : value) : M (list value) :=
  match data with
  | VList l => ret l
  | _ => raise (AssertionError "")
  end.

(** The characters of a string, each as a string of length one. *)
Fixpoint characters (s : string) : list value :=
  match s with
  | EmptyString => []
  | String c rest => VStr (String c EmptyString) :: characters rest
  end.

(** [for tx in data]: the elements of a list, the characters of a string,
    the keys of a dict; anything else is not iterable.  The keys come in the
    order of the map, not in insertion order, and a string is taken as the
    sequence of its characters; the properties below are about list
    bodies. *)
Definition iterate (data : value) : M (list value) :=
  match data with
  | VList l => ret l
  | VStr s => ret (characters s)
  | VDict d => ret (VStr <$> (map_to_list d).*1)
  | _ => raise TypeError
  end.

(** [len(data)] *)
Definition len_call (data : value) : M Z :=
  match data with
  | VList l => ret (len l)
  | VStr s => ret (len (characters s))
  | VDict d => ret (Z.of_nat (size d))
  | _ => raise TypeError
  end.

(** [except AssertionError as e: log.error(prefix + str(e)); raise] around a
    test body. *)
Definition except_AssertionError (prefix : string) (body : M unit) : M unit :=
  try_except body (λ e,
    match e with
    | AssertionError msg => Some (log_error (prefix ++ msg);; raise e)
    | _ => None
    end).

(** [assert tx['status'] != 'Pending'] *)
Definition assert_not_pending (tx : value) : M unit :=
  st ← getitem tx "status";
  assert_ (negb (py_eq_str st "Pending")).

Section TestSuite.

Variable BASE_URL : option string.
Variable HEADERS : gmap string (option string).

(** The exchange with the service: the response [requests.get] returns for a
    request.  The tests are modelled for exchanges that return one. *)
Variable requests_get : request → response.

Variable fromisoformat : string → option datetime.
Variable best_match : validation_error → list validation_error → validation_error.
Variable message : validation_error → string.

(** [self.make_request(customer_id, **kwargs)], carried out. *)
Definition send (customer_id : value) (kwargs : gmap string value) : response :=
  requests_get (make_request BASE_URL HEADERS customer_id kwargs).

(** [self.validate_transaction_ordering(data)]: the parameter
    [transactions] of the helper is bound to the list [data]. *)
Definition call_validate_transaction_ordering (data : list value) : M unit :=
  λ w, validate_transaction_ordering fromisoformat (World (logged w) data).

Definition test_get_all_transactions_normal_customer : M unit :=
  except_AssertionError "❌ Assertion failed " (
    customer_id ← customers_getitem "Customer2";
    let response := send customer_id ∅ in
    assert_ (status_code response =? 200)%Z;;
    assert_ (bool_decide (content_type response = Some "application/json"));;
    data ← json_call response;
    data ← assert_isinstance_list data;
    assert_ (len data <=? 5)%Z;;
    for_each data (validate_transaction_structure best_match message);;
    call_validate_transaction_ordering data;;
    log_info "✅ Test passed: test_get_all_transactions_normal_customer").

(** The response to the one request of that test. *)
Definition normal_customer_response : response :=
  send (VStr "746c51bc-bdb9-44d2-9a3e-c4715bc91ee4") ∅.

Definition test_filter_exclude_pending : M unit :=
  except_AssertionError "❌ Assertion failed " (
    customer_id ← customers_getitem "Customer2";
    let response := send customer_id {[ "includePending" := VBool false ]} in
    assert_ (status_code response =? 200)%Z;;
    data ← json_call response;
    txs ← iterate data;
    for_each txs (λ tx,
      assert_not_pending tx;;
      log_info "✅ Test passed: test_filter_exclude_pending")).

Definition test_transaction_structure_consistency (customer_key : string)
  : M unit :=
  except_AssertionError
    ("❌ Assertion failed for " ++ customer_key ++ " due to ") (
    customer_id ← customers_getitem customer_key;
    let response := send customer_id ∅ in
    assert_ (status_code response =? 200)%Z;;
    data ← json_call response;
    txs ← iterate data;
    for_each txs (validate_transaction_structure best_match message);;
    log_info ("✅ Test passed: test_transaction_structure_consistency for "
              ++ customer_key)).

Definition test_filter_behavior_consistency (customer_key : string) : M unit :=
  except_AssertionError
    ("❌ Assertion failed for " ++ customer_key ++ " due to ") (
    customer_id ← customers_getitem customer_key;
    let r1 := send customer_id {[ "includePending" := VBool true ]} in
    customer_id ← customers_getitem customer_key;
    let r2 := send customer_id {[ "includePending" := VBool false ]} in
    assert_ (status_code r1 =? 200)%Z;;
    assert_ (status_code r2 =? 200)%Z;;
    data1 ← json_call r1;
    data2 ← json_call r2;
    n2 ← len_call data2;
    n1 ← len_call data1;
    assert_ (n2 <=? n1)%Z;;
    txs ← iterate data2;
    for_each txs assert_not_pending;;
    log_info ("✅ Test passed: test_filter_behavior_consistency for "
              ++ customer_key)).

End TestSuite.

(** A service to run the tests against: it answers every request with the
    same status code, content type and body. *)
Definition constant_service (r : response) : request → response := λ _, r.

(** The record is an object whose [status] field is present and is not the
    string [Pending]. *)
Definition not_pending_record (t : value) : Prop :=
  ∃ d st, t = VDict d ∧ d !! "status" = Some st ∧ st ≠ VStr "Pending".

(** The success line of [test_filter_exclude_pending]. *)
Definition exclude_pending_passed : log_record :=
  LogInfo "✅ Test passed: test_filter_exclude_pending".

(** The sample record with another status and timestamp. *)
Definition sample_with (status timestamp : string) : value :=
  match sample_transaction with
  | VDict d => VDict (<["status" := VStr status]> (<["timestamp" := VStr timestamp]> d))
  | other => other
  end.

(** A service that answers with status 200, the JSON content type and the
    given list. *)
Definition list_service (l : list value) : request → response :=
  constant_service (Response 200 (Some "application/json") (Some (VList l))).

(** ** test_amount_sign_consistency *)

(** [v < 0] for an amount: numbers compare, a [bool] counts as 0 or 1, and
    anything else does not compare with an [int]. *)
Definition lt_zero_call (v : value) : M bool :=
  match v with
  | VInt n => ret (n <? 0)%Z
  | VFloat (Finite q) => ret (Qnum q <? 0)%Z
  | VFloat (Infinite negative) => ret negative
  | VFloat NaN => ret false
  | VBool _ => ret false
  | _ => raise TypeError
  end.

(** [v > 0] *)
Definition gt_zero_call (v : value) : M bool :=
  match v with
  | VInt n => ret (0 <? n)%Z
  | VFloat (Finite q) => ret (0 <? Qnum q)%Z
  | VFloat (Infinite negative) => ret (negb negative)
  | VFloat NaN => ret false
  | VBool b => ret b
  | _ => raise TypeError
  end.

(** [assert b, msg]: the message is evaluated only when the test fails. *)
Definition assert_with (b : bool) (msg : M string) : M unit :=
  if b then ret tt else (m ← msg; raise (AssertionError m)).

Section AmountSign.

Variable BASE_URL : option string.
Variable HEADERS : gmap string (option string).
Variable requests_get : request → response.

(** How an f-string renders a value. *)
Variable format_value : value → string.

(** The body of the loop over the records. *)
Definition check_amount_sign (tx : value) : M unit :=
  ty ← getitem tx "type";
  if py_eq_str ty "Debit" then
    amount ← getitem tx "amount";
    negative ← lt_zero_call amount;
    assert_with negative
      (tid ← getitem tx "transactionId";
       mret ("Debit should be negative: " ++ format_value tid))
  else
    ty ← getitem tx "type";
    if py_eq_str ty "Credit" then
      amount ← getitem tx "amount";
      positive ← gt_zero_call amount;
      assert_with positive
        (tid ← getitem tx "transactionId";
         mret ("Credit should be positive: " ++ format_value tid))
    else ret tt.

Definition test_amount_sign_consistency (customer_key : string) : M unit :=
  except_AssertionError
    ("❌ Assertion failed for " ++ customer_key ++ " due to ") (
    customer_id ← customers_getitem customer_key;
    let response := send BASE_URL HEADERS requests_get customer_id ∅ in
    assert_ (status_code response =? 200)%Z;;
    data ← json_call response;
    txs ← iterate data;
    for_each txs check_amount_sign;;
    log_info ("✅ Test passed: test_amount_sign_consistency for "
              ++ customer_key)).

End AmountSign.

(** The amount is below zero, as [<] sees it. *)
Definition negative_amount (v : value) : Prop :=
  match v with
  | VInt n => (n < 0)%Z
  | VFloat (Finite q) => (Qnum q < 0)%Z
  | VFloat (Infinite negative) => negative = true
  | _ => False
  end.

(** The amount is above zero, as [>] sees it ([True] counts as 1). *)
Definition positive_amount (v : value) : Prop :=
  match v with
  | VInt n => (0 < n)%Z
  | VFloat (Finite q) => (0 < Qnum q)%Z
  | VFloat (Infinite negative) => negative = false
  | VBool b => b = true
  | _ => False
  end.

(** What the loop asks of one record: it has a [type]; a Debit has a
    negative amount, a Credit a positive one, and any other type goes
    unchecked. *)
Definition sign_consistent (t : value) : Prop :=
  ∃ d ty, t = VDict d ∧ d !! "type" = Some ty
    ∧ (ty = VStr "Debit" →
         ∃ a, d !! "amount" = Some a ∧ negative_amount a)
    ∧ (ty = VStr "Credit" →
         ∃ a, d !! "amount" = Some a ∧ positive_amount a).

(** A rendering to run the test with: a string as itself. *)
Definition plain_format (v : value) : string :=
  match v with
  | VStr s => s
  | _ => ""
  end.

(** * Properties *)

Local Open Scope list_scope.

(** ** The replacement of [Z] *)

(** A string without [Z] is left as it is. *)
Lemma replace_Z_without_Z (s : string) :
  (∀ i, String.get i s ≠ Some "Z"%char) → replace_Z s = s.
Proof.
  induction s as [|c s IH]; intros Hno; [done|]. simpl.
  destruct (Ascii.eqb_spec c "Z"%char) as [->|_].
  - by destruct (Hno 0%nat).
  - rewrite IH; [done|]. intros i. apply (Hno (S i)).
Qed.

Lemma replace_Z_app (s1 s2 : string) :
  replace_Z (s1 +:+ s2) = replace_Z s1 +:+ replace_Z s2.
Proof.
  induction s1 as [|c s1 IH]; [done|]. simpl. rewrite IH.
  by destruct (Ascii.eqb c "Z"%char).
Qed.

(** On a timestamp whose only [Z] is the UTC suffix, the replacement turns
    that suffix into [+00:00] and nothing else. *)
Lemma replace_Z_suffix (s : string) :
  (∀ i, String.get i s ≠ Some "Z"%char) →
  replace_Z (s +:+ "Z") = (s +:+ "+00:00")%string.
Proof. intros Hno. by rewrite replace_Z_app, replace_Z_without_Z. Qed.

(** ** The monad *)

Lemma bind_Return {A B} (m : M A) (k : A → M B) w a w' :
  m w = (Return a, w') → (m ≫= k) w = k a w'.
Proof. intros H. unfold mbind, M_bind, bind. by rewrite H. Qed.

Lemma bind_Raise {A B} (m : M A) (k : A → M B) w e w' :
  m w = (Raise e, w') → (m ≫= k) w = (Raise e, w').
Proof. intros H. unfold mbind, M_bind, bind. by rewrite H. Qed.

(** A successful sequence ran both of its parts. *)
Lemma bind_inv_Return {A B} (m : M A) (k : A → M B) w b w' :
  (m ≫= k) w = (Return b, w') →
  ∃ a w1, m w = (Return a, w1) ∧ k a w1 = (Return b, w').
Proof.
  unfold mbind, M_bind, bind. destruct (m w) as [[a|e] w1]; intros H.
  - by exists a, w1.
  - discriminate.
Qed.

Lemma preserves_ret {A} (a : A) : preserves (mret a).
Proof. intros w r w' [= _ ->]. done. Qed.

Lemma preserves_raise {A} e : preserves (@raise A e).
Proof. intros w r w' [= _ ->]. done. Qed.

Lemma preserves_bind {A B} (m : M A) (k : A → M B) :
  preserves m → (∀ a, preserves (k a)) → preserves (m ≫= k).
Proof.
  intros Hm Hk w r w'. unfold mbind, M_bind, bind.
  destruct (m w) as [[a|e] w1] eqn:E; apply Hm in E as ->.
  - apply Hk.
  - by intros [= _ ->].
Qed.

Lemma preserves_for_each {A} (xs : list A) (body : A → M unit) :
  (∀ x, preserves (body x)) → preserves (for_each xs body).
Proof.
  intros Hbody. induction xs as [|x xs IH]; simpl.
  - apply preserves_ret.
  - apply preserves_bind; auto.
Qed.

Lemma preserves_assert b : preserves (assert_ b).
Proof. destruct b; [apply preserves_ret | apply preserves_raise]. Qed.

Lemma preserves_get_transactions : preserves get_transactions.
Proof. by intros w r w' [= _ ->]. Qed.

Lemma preserves_getitem v key : preserves (getitem v key).
Proof.
  destruct v; simpl; try apply preserves_raise.
  destruct (_ !! _); [apply preserves_ret | apply preserves_raise].
Qed.

Lemma preserves_getitem_index l i : preserves (getitem_index l i).
Proof.
  unfold getitem_index.
  destruct (_ !! _); [apply preserves_ret | apply preserves_raise].
Qed.

Lemma preserves_replace_call v : preserves (replace_call v).
Proof. destruct v; simpl; try apply preserves_raise. apply preserves_ret. Qed.

Lemma preserves_ge_call t1 t2 : preserves (ge_call t1 t2).
Proof.
  unfold ge_call.
  destruct (datetime_ge _ _); [apply preserves_ret | apply preserves_raise].
Qed.

Create HintDb preserves.
#[global] Hint Resolve preserves_ret preserves_raise preserves_assert
  preserves_get_transactions preserves_getitem preserves_getitem_index
  preserves_replace_call preserves_ge_call : preserves.

Ltac preserves_tac :=
  repeat first
    [ progress eauto with preserves
    | apply preserves_bind; [|intros ?]
    | apply preserves_for_each; intros ? ].

(** A loop of steps that leave the world alone succeeds exactly when every
    step does. *)
Lemma for_each_Return_iff {A} (xs : list A) (body : A → M unit) w :
  (∀ x, preserves (body x)) →
  for_each xs body w = (Return (), w) ↔
  Forall (λ x, body x w = (Return (), w)) xs.
Proof.
  intros Hbody. induction xs as [|x xs IH]; simpl.
  - split; [constructor | done].
  - rewrite Forall_cons, <- IH. unfold mbind, M_bind, bind.
    destruct (body x w) as [[[]|e] w1] eqn:E.
    + apply Hbody in E as ->. tauto.
    + split; [discriminate | intros [[=] _]].
Qed.


(** ** The ordering validator reads, it does not write *)

Section OrderingFacts.

Variable fromisoformat : string → option datetime.

Lemma preserves_with_status status ts : preserves (with_status status ts).
Proof. induction ts as [|t ts IH]; simpl; preserves_tac. Qed.

Lemma preserves_parsed_timestamp t :
  preserves (parsed_timestamp fromisoformat t).
Proof.
  unfold parsed_timestamp, fromisoformat_call. preserves_tac.
  destruct (fromisoformat _); preserves_tac.
Qed.

Lemma preserves_descending_at group i :
  preserves (descending_at fromisoformat group i).
Proof.
  unfold descending_at. pose proof preserves_parsed_timestamp. preserves_tac.
Qed.

Lemma preserves_placement_check pending : preserves (placement_check pending).
Proof. unfold placement_check. preserves_tac. Qed.

Lemma preserves_monotonicity_check groups :
  preserves (monotonicity_check fromisoformat groups).
Proof.
  unfold monotonicity_check. pose proof preserves_descending_at. preserves_tac.
Qed.

Lemma preserves_ordering_checks : preserves (ordering_checks fromisoformat).
Proof.
  unfold ordering_checks.
  pose proof preserves_with_status. pose proof preserves_placement_check.
  pose proof preserves_monotonicity_check.
  apply preserves_bind; [preserves_tac|]. intros ts.
  destruct (len ts <=? 1)%Z; preserves_tac.
Qed.

(** *** The two comprehensions *)

Lemma getitem_Return v key x w w' :
  getitem v key w = (Return x, w') ↔
  (∃ d, v = VDict d ∧ d !! key = Some x) ∧ w' = w.
Proof.
  destruct v as [| | | | |l|d]; simpl;
    try (split; [discriminate | by intros [(? & ? & _) _]]).
  destruct (d !! key) as [y|] eqn:E.
  - split.
    + intros [= -> ->]. eauto.
    + intros [(d' & [= <-] & Hx) ->]. rewrite E in Hx. by injection Hx as ->.
  - split; [discriminate | intros [(d' & [= <-] & Hx) _]; congruence].
Qed.

Lemma with_status_Return status ts w l w' :
  with_status status ts w = (Return l, w') ↔
  Forall has_status_field ts ∧ l = subsequence status ts ∧ w' = w.
Proof.
  revert l w'. induction ts as [|t ts IH]; intros l w'; simpl.
  - split.
    + intros [= <- <-]. by repeat split.
    + by intros (_ & -> & ->).
  - split.
    + intros H.
      apply bind_inv_Return in H as (st & w1 & Hst & H).
      apply bind_inv_Return in H as (kept & w2 & Hkept & H).
      apply getitem_Return in Hst as [(d & -> & Hd) ->].
      apply IH in Hkept as (Hall & -> & ->).
      injection H as <- <-. split; [|split; [|done]].
      * constructor; [by exists d, st | done].
      * unfold subsequence. simpl. by rewrite Hd.
    + intros (Hall & -> & ->). inversion Hall as [|? ? (d & st & -> & Hd) Hts]; subst.
      erewrite bind_Return; [|by apply getitem_Return; eauto].
      erewrite bind_Return; [|by apply IH].
      unfold subsequence. simpl. by rewrite Hd.
Qed.

Lemma status_is_has_status s t : status_is s t = true ↔ has_status s t.
Proof.
  unfold status_is, has_status. split.
  - destruct t as [| | | | | |d]; try done.
    destruct (d !! "status") as [[| | | |s'| |]|] eqn:E; simpl; try done.
    intros ->%String.eqb_eq. eauto.
  - intros (d & -> & ->). simpl. apply String.eqb_refl.
Qed.

(** *** The monotonicity loop *)

Lemma parsed_timestamp_Return x t w w' :
  parsed_timestamp fromisoformat x w = (Return t, w') →
  timestamp_reads fromisoformat x t ∧ w' = w.
Proof.
  unfold parsed_timestamp. intros H.
  apply bind_inv_Return in H as (ts & w1 & Hts & H).
  apply bind_inv_Return in H as (s & w2 & Hs & H).
  apply getitem_Return in Hts as [(d & -> & Hd) ->].
  destruct ts as [| | | |s0| |]; simpl in Hs; try discriminate.
  injection Hs as <- <-.
  unfold fromisoformat_call in H.
  destruct (fromisoformat _) eqn:E; [|discriminate].
  injection H as <- <-. split; [|done]. by exists d, s0.
Qed.

Lemma datetime_ge_not_earlier t1 t2 :
  datetime_ge t1 t2 = Some true ↔ not_earlier t1 t2.
Proof.
  unfold datetime_ge, not_earlier.
  destruct (utcoffset t1), (utcoffset t2); try (split; [discriminate | done]).
  - rewrite <- Z.leb_le. split; [by intros [=] | by intros ->].
  - rewrite <- Z.leb_le. split; [by intros [=] | by intros ->].
Qed.

Lemma descending_at_Return group i w w' :
  descending_at fromisoformat group i w = (Return (), w') →
  ∃ a b t1 t2, group !! i = Some a ∧ group !! S i = Some b
    ∧ timestamp_reads fromisoformat a t1
    ∧ timestamp_reads fromisoformat b t2
    ∧ not_earlier t1 t2.
Proof.
  unfold descending_at. intros H.
  apply bind_inv_Return in H as (a & w1 & Ha & H).
  apply bind_inv_Return in H as (t1 & w2 & Ht1 & H).
  apply bind_inv_Return in H as (b & w3 & Hb & H).
  apply bind_inv_Return in H as (t2 & w4 & Ht2 & H).
  apply bind_inv_Return in H as (ok & w5 & Hok & H).
  unfold getitem_index in Ha, Hb.
  destruct (group !! i) as [a'|] eqn:Ei; [|discriminate].
  destruct (group !! (i + 1)%nat) as [b'|] eqn:Ej; [|discriminate].
  injection Ha as -> ->. injection Hb as -> ->.
  apply parsed_timestamp_Return in Ht1 as [Ht1 ->].
  apply parsed_timestamp_Return in Ht2 as [Ht2 ->].
  unfold ge_call in Hok. destruct (datetime_ge t1 t2) as [c|] eqn:Ege; [|discriminate].
  injection Hok as -> ->. destruct ok; [|discriminate].
  exists a, b, t1, t2. rewrite <- Nat.add_1_r.
  repeat split; try done. by apply datetime_ge_not_earlier.
Qed.

Lemma elem_of_range (i : nat) (n : Z) : i ∈ range n ↔ (Z.of_nat i < n)%Z.
Proof. unfold range. rewrite elem_of_seq. lia. Qed.

Lemma group_loop_Return group w :
  for_each (range (len group - 1)) (descending_at fromisoformat group) w
    = (Return (), w) →
  non_increasing fromisoformat group.
Proof.
  intros H. apply for_each_Return_iff in H; [|apply preserves_descending_at].
  intros i a b Ha Hb. rewrite Forall_forall in H.
  assert (i ∈ range (len group - 1)) as Hi.
  { apply elem_of_range. apply lookup_lt_Some in Hb. unfold len. lia. }
  apply H, descending_at_Return in Hi as (a' & b' & t1 & t2 & Ha' & Hb' & ?).
  exists t1, t2. by simplify_eq.
Qed.

(** *** The body of the [try] block, step by step *)

Lemma ordering_checks_short w :
  (length (transactions w) ≤ 1)%nat →
  ordering_checks fromisoformat w = (Return (), w).
Proof.
  intros Hlen. unfold ordering_checks.
  erewrite bind_Return by reflexivity.
  destruct (Z.leb_spec (len (transactions w)) 1); [done | unfold len in *; lia].
Qed.

Lemma ordering_checks_long w :
  (2 ≤ length (transactions w))%nat →
  ordering_checks fromisoformat w =
    (pending ← with_status "Pending" (transactions w);
     booked ← with_status "Booked" (transactions w);
     placement_check pending;;
     monotonicity_check fromisoformat [pending; booked]) w.
Proof.
  intros Hlen. unfold ordering_checks.
  erewrite bind_Return by reflexivity.
  destruct (Z.leb_spec (len (transactions w)) 1); [unfold len in *; lia |].
  erewrite bind_Return by reflexivity.
  unfold mbind, M_bind, bind.
  destruct (with_status "Pending" _ w) as [[pending|e] w1] eqn:E; [|done].
  apply with_status_Return in E as (_ & _ & ->). done.
Qed.

End OrderingFacts.

(** ** Pending first: the list side *)

Lemma has_status_exclusive t :
  has_status "Booked" t → has_status "Pending" t → False.
Proof. intros (d & -> & Hb) (d' & [= <-] & Hp). congruence. Qed.

Lemma has_status_has_field s t : has_status s t → has_status_field t.
Proof. intros (d & -> & H). by exists d, (VStr s). Qed.

Lemma subsequence_all s ts :
  Forall (has_status s) ts → subsequence s ts = ts.
Proof.
  induction 1 as [|t ts Ht _ IH]; [done|].
  unfold subsequence in *. simpl.
  apply status_is_has_status in Ht as ->. by rewrite IH.
Qed.

Lemma subsequence_none ts :
  Forall (has_status "Booked") ts → subsequence "Pending" ts = [].
Proof.
  induction 1 as [|t ts Ht _ IH]; [done|].
  unfold subsequence in *. simpl.
  destruct (status_is "Pending" t) eqn:E; [|done].
  apply status_is_has_status in E. by destruct (has_status_exclusive t).
Qed.

Lemma subsequence_app s ts1 ts2 :
  subsequence s (ts1 ++ ts2) = subsequence s ts1 ++ subsequence s ts2.
Proof. apply List.filter_app. Qed.

Lemma no_pending_all_booked ts :
  Forall (λ t, has_status "Pending" t ∨ has_status "Booked" t) ts →
  subsequence "Pending" ts = [] →
  Forall (has_status "Booked") ts.
Proof.
  induction 1 as [|t ts [Ht|Ht] _ IH]; [done| |]; unfold subsequence in *; simpl.
  - apply status_is_has_status in Ht as ->. discriminate.
  - destruct (status_is "Pending" t); [discriminate|]. auto.
Qed.

(** The first [len(pending)] elements are Pending exactly when the Pending
    elements form a prefix. *)
Lemma leading_pending_iff_prefix ts :
  Forall (λ t, has_status "Pending" t ∨ has_status "Booked" t) ts →
  (∀ i, (i < length (subsequence "Pending" ts))%nat →
        ∃ t, ts !! i = Some t ∧ has_status "Pending" t)
  ↔ pending_prefix ts.
Proof.
  intros Hall. split.
  - induction Hall as [|t ts Ht Hall IH]; intros Hlead.
    + exists [], []. by repeat split.
    + destruct (status_is "Pending" t) eqn:E.
      * destruct IH as (ps & bs & -> & Hps & Hbs).
        { intros i Hi. apply (Hlead (S i)).
          unfold subsequence in *. simpl. rewrite E. simpl. lia. }
        exists (t :: ps), bs. repeat split; [|done].
        constructor; [by apply status_is_has_status | done].
      * destruct (subsequence "Pending" ts) as [|p rest] eqn:Esub.
        -- exists [], (t :: ts). repeat split; [done|].
           apply no_pending_all_booked.
           ++ by constructor.
           ++ unfold subsequence in *. simpl. by rewrite E.
        -- destruct (Hlead 0%nat) as (t' & [= <-] & Hp).
           { unfold subsequence in *. simpl. rewrite E, Esub. simpl. lia. }
           apply status_is_has_status in Hp. congruence.
  - intros (ps & bs & -> & Hps & Hbs) i Hi.
    rewrite subsequence_app, subsequence_all, subsequence_none in Hi by done.
    rewrite length_app, Nat.add_0_r in Hi.
    destruct (lookup_lt_is_Some_2 ps i Hi) as [t Ht].
    exists t. split.
    + by rewrite lookup_app_l.
    + by eapply Forall_lookup_1.
Qed.

Lemma not_booked_before_pending_iff_prefix ts :
  Forall (λ t, has_status "Pending" t ∨ has_status "Booked" t) ts →
  ¬ booked_before_pending ts ↔ pending_prefix ts.
Proof.
  intros Hall. split.
  - induction Hall as [|t ts Ht Hall IH]; intros Hno.
    + exists [], []. by repeat split.
    + destruct IH as (ps & bs & -> & Hps & Hbs).
      { intros (i & j & a & b & Hij & Ha & Hb & Hsa & Hsb). apply Hno.
        exists (S i), (S j), a, b. repeat split; try done. lia. }
      destruct Ht as [Ht|Ht].
      * exists (t :: ps), bs. repeat split; [|done]. by constructor.
      * destruct ps as [|p ps].
        -- exists [], (t :: bs). repeat split; [done|]. by constructor.
        -- destruct Hno. exists 0%nat, 1%nat, t, p.
           repeat split; try done; [lia|]. by inversion Hps.
  - intros (ps & bs & -> & Hps & Hbs) (i & j & a & b & Hij & Ha & Hb & Hsa & Hsb).
    destruct (decide (i < length ps)%nat) as [Hi|Hi].
    + rewrite lookup_app_l in Ha by done.
      apply (has_status_exclusive a); [done|]. by eapply Forall_lookup_1.
    + rewrite lookup_app_r in Hb by lia.
      apply (has_status_exclusive b); [|done]. by eapply Forall_lookup_1.
Qed.

(** ** Pending first: the loop *)

Lemma placement_check_Return_iff ts log pending :
  placement_check pending (World log ts) = (Return (), World log ts)
  ↔ ∀ i, (i < length pending)%nat →
         ∃ t, ts !! i = Some t ∧ has_status "Pending" t.
Proof.
  unfold placement_check.
  rewrite for_each_Return_iff by (intros ?; preserves_tac).
  rewrite Forall_forall. unfold len.
  split; intros H i Hi.
  - assert (i ∈ range (Z.of_nat (length pending))) as Hin
      by (apply elem_of_range; lia).
    apply H in Hin.
    apply bind_inv_Return in Hin as (ts' & w1 & [= <- <-] & Hin).
    apply bind_inv_Return in Hin as (t & w2 & Ht & Hin).
    apply bind_inv_Return in Hin as (st & w3 & Hst & Hin).
    unfold getitem_index in Ht. simpl in Ht.
    destruct (ts !! i) as [t'|] eqn:E; [|discriminate]. injection Ht as -> <-.
    apply getitem_Return in Hst as [(d & -> & Hd) ->].
    exists (VDict d). split; [done|]. apply status_is_has_status.
    simpl. rewrite Hd. unfold assert_ in Hin. by destruct (py_eq_str st _).
  - apply elem_of_range in Hi.
    destruct (H i) as (t & Ht & d & -> & Hd); [lia|].
    erewrite bind_Return by reflexivity.
    erewrite bind_Return by (unfold getitem_index; simpl; by rewrite Ht).
    erewrite bind_Return by (simpl; by rewrite Hd).
    done.
Qed.

(** C1. On a list whose elements all have status Pending or Booked, the two
    comprehensions succeed, and the placement loop succeeds if and only if no
    Booked element sits at an earlier index than a Pending one, which is the
    same as the Pending elements forming a prefix of the list. *)
Theorem placement_check_pending_first (ts : list value) (log : list log_record) :
  Forall (λ t, has_status "Pending" t ∨ has_status "Booked" t) ts →
  let w := World log ts in
  with_status "Pending" ts w = (Return (subsequence "Pending" ts), w)
  ∧ with_status "Booked" ts w = (Return (subsequence "Booked" ts), w)
  ∧ (placement_check (subsequence "Pending" ts) w = (Return (), w)
     ↔ ¬ booked_before_pending ts)
  ∧ (¬ booked_before_pending ts ↔ pending_prefix ts).
Proof.
  intros Hall w.
  assert (Forall has_status_field ts) as Hfields.
  { eapply Forall_impl; [exact Hall|].
    intros t [H|H]; by eapply has_status_has_field. }
  repeat split; try (by apply with_status_Return).
  - intros H. apply not_booked_before_pending_iff_prefix; [done|].
    apply leading_pending_iff_prefix; [done|].
    exact (proj1 (placement_check_Return_iff ts log _) H).
  - intros H. apply (placement_check_Return_iff ts log).
    apply leading_pending_iff_prefix; [done|].
    by apply not_booked_before_pending_iff_prefix.
  - by apply not_booked_before_pending_iff_prefix.
  - by apply not_booked_before_pending_iff_prefix.
Qed.

(** ** The handler around the checks *)

(** What the [except AssertionError] clause makes of each outcome of the
    [try] block. *)
Lemma validate_transaction_ordering_unfold fromisoformat w :
  validate_transaction_ordering fromisoformat w =
    match ordering_checks fromisoformat w with
    | (Raise (AssertionError msg), w') =>
        (Raise (AssertionError msg),
         World (logged w' ++ [LogError ("❌ Assertion failed " ++ msg)%string])
               (transactions w'))
    | outcome => outcome
    end.
Proof.
  unfold validate_transaction_ordering, try_except.
  destruct (ordering_checks fromisoformat w) as [[[]|[]] w']; done.
Qed.

Lemma validate_transaction_ordering_Return fromisoformat w w' :
  validate_transaction_ordering fromisoformat w = (Return (), w') →
  ordering_checks fromisoformat w = (Return (), w').
Proof.
  rewrite validate_transaction_ordering_unfold.
  destruct (ordering_checks fromisoformat w) as [[[]|[]] w1]; done.
Qed.

(** C6. A list of length 0 or 1 passes, whatever its element is: the
    validator returns without raising and without logging. *)
Theorem short_lists_always_pass
    (fromisoformat : string → option datetime)
    (ts : list value) (log : list log_record) :
  (length ts ≤ 1)%nat →
  validate_transaction_ordering fromisoformat (World log ts)
    = (Return (), World log ts).
Proof.
  intros Hlen. rewrite validate_transaction_ordering_unfold.
  by rewrite ordering_checks_short.
Qed.

(** C2. On a list of at least two elements, the validator succeeds only if
    the Pending subsequence and the Booked subsequence each have
    non-increasing timestamps: for every two consecutive elements both
    timestamps are strings that, after the replacement of [Z] by [+00:00],
    read as instants, and the first is not earlier than the second. *)
Theorem success_implies_non_increasing
    (fromisoformat : string → option datetime)
    (ts : list value) (log : list log_record) (w' : world) :
  (2 ≤ length ts)%nat →
  validate_transaction_ordering fromisoformat (World log ts) = (Return (), w') →
  non_increasing fromisoformat (subsequence "Pending" ts)
  ∧ non_increasing fromisoformat (subsequence "Booked" ts).
Proof.
  intros Hlen H. apply validate_transaction_ordering_Return in H.
  rewrite ordering_checks_long in H by done. simpl in H.
  apply bind_inv_Return in H as (pending & w1 & Hp & H).
  apply bind_inv_Return in H as (booked & w2 & Hb & H).
  apply bind_inv_Return in H as ([] & w3 & _ & H).
  apply with_status_Return in Hp as (_ & -> & ->).
  apply with_status_Return in Hb as (_ & -> & ->).
  unfold monotonicity_check in H. simpl in H.
  apply bind_inv_Return in H as ([] & w4 & H1 & H).
  apply bind_inv_Return in H as ([] & w5 & H2 & _).
  pose proof H1 as E1.
  apply preserves_for_each in E1 as ->; [|apply preserves_descending_at].
  pose proof H2 as E2.
  apply preserves_for_each in E2 as ->; [|apply preserves_descending_at].
  split; eapply group_loop_Return; eauto.
Qed.

(** C8. When the checks detect an ordering violation, the validator appends
    one error line to the log and raises the same assertion failure; the
    checks themselves have changed nothing, so the list object is as it
    was. *)
Theorem assertion_failure_logged_then_reraised
    (fromisoformat : string → option datetime)
    (w w1 : world) (msg : string) :
  ordering_checks fromisoformat w = (Raise (AssertionError msg), w1) →
  validate_transaction_ordering fromisoformat w =
    (Raise (AssertionError msg),
     World (logged w ++ [LogError ("❌ Assertion failed " ++ msg)%string])
           (transactions w)).
Proof.
  intros H. rewrite validate_transaction_ordering_unfold, H.
  by apply preserves_ordering_checks in H as ->.
Qed.

(** ** Errors the handler does not catch *)

Lemma entry_status status s : has_status status (entry status s).
Proof. eexists. split; [done|]. unfold entry. by simplify_map_eq. Qed.

Lemma parsed_timestamp_unreadable fromisoformat status s w :
  fromisoformat (replace_Z s) = None →
  parsed_timestamp fromisoformat (entry status s) w = (Raise ValueError, w).
Proof.
  intros Hs. unfold parsed_timestamp.
  erewrite bind_Return; [|unfold entry; simpl; by simplify_map_eq].
  erewrite bind_Return by reflexivity.
  unfold fromisoformat_call. by rewrite Hs.
Qed.

(** A group that starts with an unreadable timestamp and has a second
    element stops the monotonicity loop with [ValueError]. *)
Lemma group_loop_unreadable fromisoformat status s b rest w :
  fromisoformat (replace_Z s) = None →
  for_each (range (len (entry status s :: b :: rest) - 1))
    (descending_at fromisoformat (entry status s :: b :: rest)) w
  = (Raise ValueError, w).
Proof.
  intros Hs.
  replace (range _) with (0%nat :: seq 1 (length rest)).
  - simpl. apply bind_Raise. unfold descending_at.
    erewrite bind_Return by reflexivity.
    apply bind_Raise. by apply parsed_timestamp_unreadable.
  - unfold range, len. simpl length.
    replace (Z.to_nat _) with (S (length rest)) by lia. done.
Qed.

(** C9. Two elements of the same status, the first with a timestamp that
    does not read as ISO-8601 after the replacement: the validator raises
    [ValueError], which is not an assertion failure, and the handler is
    bypassed, so nothing is logged. *)
Theorem unreadable_timestamp_bypasses_handler
    (fromisoformat : string → option datetime)
    (status s : string) (b : value) (log : list log_record) :
  status = "Pending" ∨ status = "Booked" →
  has_status status b →
  fromisoformat (replace_Z s) = None →
  let ts := [entry status s; b] in
  validate_transaction_ordering fromisoformat (World log ts)
    = (Raise ValueError, World log ts)
  ∧ ∀ msg, ValueError ≠ AssertionError msg.
Proof.
  intros Hstatus Hb Hs ts. split; [|done].
  set (w := World log ts).
  assert (Forall (has_status status) ts) as Hall.
  { repeat constructor; [apply entry_status | done]. }
  assert (Forall has_status_field ts) as Hfields.
  { eapply Forall_impl; [exact Hall|]. apply has_status_has_field. }
  rewrite validate_transaction_ordering_unfold.
  rewrite ordering_checks_long by (simpl; lia).
  change (transactions w) with ts.
  erewrite bind_Return by (by apply with_status_Return).
  erewrite bind_Return by (by apply with_status_Return).
  destruct Hstatus as [-> | ->].
  - rewrite subsequence_all by done.
    erewrite bind_Return; cycle 1.
    { apply placement_check_Return_iff. intros i Hi.
      destruct (lookup_lt_is_Some_2 ts i Hi) as [t Ht].
      exists t. split; [done|]. by eapply Forall_lookup_1. }
    unfold monotonicity_check. cbn [for_each].
    erewrite bind_Raise; [|by apply group_loop_unreadable]. done.
  - rewrite subsequence_none by done. rewrite subsequence_all by done.
    erewrite bind_Return by reflexivity.
    unfold monotonicity_check. cbn [for_each].
    erewrite bind_Return by reflexivity.
    erewrite bind_Raise; [|by apply group_loop_unreadable]. done.
Qed.

(** ** The request builder *)

Lemma lower_str_bool b :
  VStr (lower (str_bool b)) = normalized (VBool b).
Proof. by destruct b. Qed.

Lemma normalize_item_lookup_ne params key v k :
  key ≠ k → normalize_item params (key, v) !! k = params !! k.
Proof.
  intros Hne. destruct v; simpl; try done. by rewrite lookup_insert_ne.
Qed.

Lemma normalize_item_lookup_eq params key v :
  normalize_item params (key, v) !! key =
    match v with
    | VBool _ => Some (normalized v)
    | _ => params !! key
    end.
Proof.
  destruct v; simpl; try done.
  by rewrite lookup_insert_eq, lower_str_bool.
Qed.

(** The loop over a duplicate-free list of items re-binds exactly the keys
    whose item carries a boolean. *)
Lemma foldl_normalize_item_lookup (items : list (string * value)) :
  ∀ (params : gmap string value) (k : string),
    NoDup items.*1 →
    foldl normalize_item params items !! k =
      match (list_to_map items : gmap string value) !! k with
      | Some (VBool b) => Some (normalized (VBool b))
      | _ => params !! k
      end.
Proof.
  induction items as [|[key v] items IH]; intros params k Hnd.
  - simpl. by rewrite lookup_empty.
  - rewrite fmap_cons, NoDup_cons in Hnd. destruct Hnd as [Hfresh Hnd].
    rewrite list_to_map_cons. cbn [foldl]. rewrite IH by done.
    destruct (decide (key = k)) as [->|Hne].
    + rewrite (not_elem_of_list_to_map_1 _ k) by done.
      rewrite lookup_insert_eq, normalize_item_lookup_eq.
      by destruct v.
    + rewrite lookup_insert_ne by done.
      by rewrite normalize_item_lookup_ne.
Qed.

Lemma normalize_params_lookup (params : gmap string value) (k : string) :
  normalize_params params !! k = normalized <$> params !! k.
Proof.
  unfold normalize_params.
  rewrite foldl_normalize_item_lookup by apply NoDup_fst_map_to_list.
  rewrite list_to_map_to_list.
  destruct (params !! k) as [[]|]; done.
Qed.

Lemma make_request_lookup url hdrs customer_id (kwargs : gmap string value) k :
  params (make_request url hdrs customer_id kwargs) !! k =
    normalized <$> <["customerId" := customer_id]> kwargs !! k.
Proof. unfold make_request. simpl. apply normalize_params_lookup. Qed.

(** C4, as amended. Every named parameter other than one called
    [customerId] appears in the query-parameter map as the lowercase string
    ["true"] or ["false"] when its value is a boolean, and with its value
    unchanged otherwise. *)
Theorem named_parameters_normalized
    (url : option string) (hdrs : gmap string (option string))
    (customer_id : value) (kwargs : gmap string value)
    (k : string) (v : value) :
  kwargs !! k = Some v →
  k ≠ "customerId" →
  params (make_request url hdrs customer_id kwargs) !! k =
    Some match v with
         | VBool b => VStr (if b then "true" else "false")
         | _ => v
         end.
Proof.
  intros Hk Hne. rewrite make_request_lookup, lookup_insert_ne by done.
  by rewrite Hk.
Qed.

(** C10, as amended. The query-parameter map always binds [customerId] to
    the positional argument, whatever the keyword parameters say; a boolean
    argument is bound in its lowercase string form like any other boolean. *)
Theorem customerId_bound_to_positional_argument
    (url : option string) (hdrs : gmap string (option string))
    (customer_id : value) (kwargs : gmap string value) :
  params (make_request url hdrs customer_id kwargs) !! "customerId" =
    Some match customer_id with
         | VBool b => VStr (if b then "true" else "false")
         | _ => customer_id
         end.
Proof. by rewrite make_request_lookup, lookup_insert_eq. Qed.

(** C4 fails as stated: a keyword parameter called [customerId] is
    overwritten by the positional argument, so a boolean passed under that
    name does not come out as ["true"] or ["false"]. *)
Lemma keyword_customerId_is_overwritten :
  ¬ ∀ (customer_id : value) (kwargs : gmap string value) (k : string) (v : value),
      kwargs !! k = Some v →
      params (make_request None ∅ customer_id kwargs) !! k =
        Some match v with
             | VBool b => VStr (if b then "true" else "false")
             | _ => v
             end.
Proof.
  intros H.
  specialize (H (VStr "abc") {[ "customerId" := VBool true ]} "customerId"
                (VBool true) eq_refl).
  vm_compute in H. discriminate H.
Qed.

(** C10 fails as stated: a boolean positional argument is bound as a
    string, not as itself. *)
Lemma boolean_customer_id_is_rewritten :
  ¬ ∀ (customer_id : value) (kwargs : gmap string value),
      params (make_request None ∅ customer_id kwargs) !! "customerId" =
        Some customer_id.
Proof.
  intros H. specialize (H (VBool true) ∅).
  vm_compute in H. discriminate H.
Qed.

(** ** The schema validator *)

Section SchemaFacts.

Variable best_match : validation_error → list validation_error → validation_error.
Variable message : validation_error → string.

(** The validator accepts exactly the instances without errors, and reports
    a validation failure for the others. *)
Lemma validate_transaction_structure_no_errors transaction w :
  iter_errors transaction_schema transaction = [] →
  validate_transaction_structure best_match message transaction w
    = (Return (), w).
Proof.
  intros H. unfold validate_transaction_structure, try_except, validate.
  by rewrite H.
Qed.

Lemma validate_transaction_structure_errors transaction w :
  iter_errors transaction_schema transaction ≠ [] →
  validation_failure message w
    (validate_transaction_structure best_match message transaction w).
Proof.
  intros H. unfold validate_transaction_structure, try_except, validate.
  destruct (iter_errors _ _) as [|e es]; [done|].
  by exists (best_match e es).
Qed.

Lemma validation_failure_not_accepted w outcome :
  validation_failure message w outcome → ¬ accepted outcome.
Proof. intros [err ->]. unfold accepted. simpl. discriminate. Qed.

Lemma accepted_no_errors transaction w :
  accepted (validate_transaction_structure best_match message transaction w) →
  iter_errors transaction_schema transaction = [].
Proof.
  intros Hacc. destruct (iter_errors _ _) as [|e es] eqn:E; [done|].
  destruct (validation_failure_not_accepted w _
    (validate_transaction_structure_errors transaction w ltac:(by rewrite E)) Hacc).
Qed.

End SchemaFacts.

(** *** The object keywords *)

Lemma required_errors_nil names (d : gmap string value) :
  required_errors names d = [] ↔ Forall (λ name, is_Some (d !! name)) names.
Proof.
  unfold required_errors. induction names as [|name names IH]; simpl.
  - split; [constructor | done].
  - rewrite Forall_cons, <- IH.
    destruct (d !! name) as [v|]; simpl.
    + split; [eauto | tauto].
    + split; [discriminate | intros [Hs _]; by apply is_Some_None in Hs].
Qed.

Lemma properties_errors_nil props (d : gmap string value) name sub v :
  properties_errors props d = [] →
  (name, sub) ∈ props → d !! name = Some v →
  property_errors name sub v = [].
Proof.
  unfold properties_errors. intros Hnil Hin Hv.
  induction props as [|[name' sub'] props IH]; [by apply elem_of_nil in Hin|].
  simpl in Hnil. apply app_eq_nil in Hnil as [Hhd Htl].
  apply elem_of_cons in Hin as [[= <- <-]|Hin]; [|by apply IH].
  by rewrite Hv in Hhd.
Qed.

Lemma properties_errors_not_nil props (d : gmap string value) name sub v :
  (name, sub) ∈ props → d !! name = Some v →
  property_errors name sub v ≠ [] →
  properties_errors props d ≠ [].
Proof.
  intros Hin Hv Hne Hnil. by apply Hne, (properties_errors_nil props d).
Qed.

Lemma elem_of_extras props (d : gmap string value) k :
  k ∈ extras props d ↔ is_Some (d !! k) ∧ k ∉ props.*1.
Proof.
  unfold extras.
  rewrite list_elem_of_filter, (list_elem_of_fmap fst (map_to_list d)). split.
  - intros [Hk ([k' v] & -> & Hin)]. apply elem_of_map_to_list in Hin. eauto.
  - intros [[v Hv] Hk]. split; [done|].
    exists (k, v). split; [done|]. by apply elem_of_map_to_list.
Qed.

Lemma additional_errors_not_nil props (d : gmap string value) k :
  is_Some (d !! k) → k ∉ props.*1 →
  additional_errors false props d ≠ [].
Proof.
  intros Hk Hnot. unfold additional_errors.
  destruct (extras props d) as [|x xs] eqn:E; [|done].
  assert (k ∈ extras props d) as Hin by by apply elem_of_extras.
  rewrite E in Hin. by apply elem_of_nil in Hin.
Qed.

(** The errors of the transaction schema on an object, keyword by keyword. *)
Lemma iter_errors_object (d : gmap string value) :
  iter_errors transaction_schema (VDict d) =
    required_errors (required transaction_schema) d
    ++ properties_errors (properties transaction_schema) d
    ++ additional_errors false (properties transaction_schema) d.
Proof. done. Qed.

Lemma iter_errors_nil transaction :
  iter_errors transaction_schema transaction = [] →
  ∃ d, transaction = VDict d
       ∧ required_errors (required transaction_schema) d = []
       ∧ properties_errors (properties transaction_schema) d = []
       ∧ additional_errors false (properties transaction_schema) d = [].
Proof.
  destruct transaction as [| | | | | |d]; try discriminate.
  rewrite iter_errors_object. intros H.
  apply app_eq_nil in H as [H1 H]. apply app_eq_nil in H as [H2 H3].
  by exists d.
Qed.

(** *** The [categoryId] property *)

Lemma is_integral_exact q :
  is_integral q = true → Qnum q = (Qnum q / Zpos (Qden q) * Zpos (Qden q))%Z.
Proof.
  unfold is_integral. intros H%Z.eqb_eq.
  rewrite Z.mul_comm. apply Z.div_exact; [lia | done].
Qed.

Lemma is_type_integer v :
  is_type v T_integer = true ↔ is_Some (integer_value v).
Proof.
  split.
  - destruct v as [| | |[q| |]| | |]; simpl; try discriminate; [eauto|].
    intros ->. eauto.
  - intros [n Hn].
    destruct v as [| | |[q| |]| | |]; simpl in *; try discriminate; [done|].
    by destruct (is_integral q).
Qed.

Lemma integer_value_bounds v n bound :
  integer_value v = Some n →
  is_type v T_number = true
  ∧ number_lt v bound = (n <? bound)%Z
  ∧ number_gt v bound = (bound <? n)%Z.
Proof.
  destruct v as [| |m|[q| |]| | |]; simpl; try discriminate.
  - by intros [= ->].
  - destruct (is_integral q) eqn:E; [|discriminate]. intros [= <-].
    apply is_integral_exact in E.
    set (k := (Qnum q / Zpos (Qden q))%Z) in *.
    repeat split.
    + destruct (Z.ltb_spec (Qnum q) (bound * Zpos (Qden q)));
        destruct (Z.ltb_spec k bound); try done; nia.
    + destruct (Z.ltb_spec (bound * Zpos (Qden q)) (Qnum q));
        destruct (Z.ltb_spec bound k); try done; nia.
Qed.

Lemma categoryId_errors_nil v :
  property_errors "categoryId"
    (PropertySchema [T_integer] None None (Some 1%Z) (Some 20%Z)) v = []
  ↔ ∃ n, integer_value v = Some n ∧ (1 ≤ n ≤ 20)%Z.
Proof.
  unfold property_errors.
  cbn [p_type p_enum p_minimum p_maximum existsb app]. rewrite orb_false_r. split.
  - destruct (is_type v T_integer) eqn:E; [|discriminate].
    apply is_type_integer in E as [n Hn].
    destruct (integer_value_bounds v n 1 Hn) as (-> & -> & _).
    destruct (integer_value_bounds v n 20 Hn) as (_ & _ & ->).
    simpl. intros H. exists n. split; [done|].
    destruct (Z.ltb_spec n 1); [discriminate|].
    destruct (Z.ltb_spec 20 n); [discriminate|]. lia.
  - intros (n & Hn & Hlo & Hhi).
    destruct (integer_value_bounds v n 1 Hn) as (-> & -> & _).
    destruct (integer_value_bounds v n 20 Hn) as (_ & _ & ->).
    rewrite (proj2 (is_type_integer v)) by eauto. simpl.
    destruct (Z.ltb_spec n 1); [lia|].
    destruct (Z.ltb_spec 20 n); [lia|]. done.
Qed.

(** *** The field names *)

Ltac listed := simpl; repeat (apply elem_of_cons; first [by left | right]).

Lemma categoryId_required : "categoryId" ∈ required transaction_schema.
Proof. listed. Qed.

Lemma categoryId_property :
  ("categoryId", PropertySchema [T_integer] None None (Some 1%Z) (Some 20%Z))
    ∈ properties transaction_schema.
Proof. listed. Qed.

Lemma transaction_fields :
  required transaction_schema =
    ["transactionId"; "amount"; "currency"; "merchantName"; "timestamp";
     "type"; "subType"; "status"; "categoryId"; "description"]
  ∧ (properties transaction_schema).*1 = required transaction_schema.
Proof. done. Qed.

(** C3, as amended. The validator accepts a record only if it is an object
    in which all ten fields listed in §3 are present; when any one of them
    is absent the validator reports a validation failure. *)
Theorem all_ten_fields_required
    (best_match : validation_error → list validation_error → validation_error)
    (message : validation_error → string)
    (transaction : value) (w : world) :
  let outcome :=
    validate_transaction_structure best_match message transaction w in
  let fields :=
    ["transactionId"; "amount"; "currency"; "merchantName"; "timestamp";
     "type"; "subType"; "status"; "categoryId"; "description"] in
  (accepted outcome →
     ∃ d, transaction = VDict d ∧ Forall (λ f, is_Some (d !! f)) fields)
  ∧ (∀ d f, transaction = VDict d → f ∈ fields → d !! f = None →
       validation_failure message w outcome).
Proof.
  intros outcome fields. split.
  - intros Hacc. apply accepted_no_errors, iter_errors_nil in Hacc
      as (d & -> & Hreq & _). exists d. split; [done|].
    by apply required_errors_nil in Hreq.
  - intros d f -> Hf Hnone. apply validate_transaction_structure_errors.
    rewrite iter_errors_object. intros H. apply app_eq_nil in H as [Hreq _].
    apply required_errors_nil in Hreq.
    rewrite Forall_forall in Hreq. apply Hreq in Hf.
    rewrite Hnone in Hf. by apply is_Some_None in Hf.
Qed.

(** C5. A record that contains a field outside the fixed set is rejected:
    the validator reports a validation failure. *)
Theorem unknown_field_rejected
    (best_match : validation_error → list validation_error → validation_error)
    (message : validation_error → string)
    (d : gmap string value) (k : string) (w : world) :
  is_Some (d !! k) →
  k ∉ ["transactionId"; "amount"; "currency"; "merchantName"; "timestamp";
       "type"; "subType"; "status"; "categoryId"; "description"] →
  validation_failure message w
    (validate_transaction_structure best_match message (VDict d) w).
Proof.
  intros Hk Hnot. apply validate_transaction_structure_errors.
  rewrite iter_errors_object. intros H.
  apply app_eq_nil in H as [_ H]. apply app_eq_nil in H as [_ H].
  by apply (additional_errors_not_nil _ d k) in H.
Qed.

(** C7. The validator accepts a record only if its [categoryId] is an
    integer between 1 and 20 inclusive; when the field is present and is not
    an integer, or is an integer outside that range, the validator reports a
    validation failure. *)
Theorem categoryId_integer_in_range
    (best_match : validation_error → list validation_error → validation_error)
    (message : validation_error → string)
    (transaction : value) (w : world) :
  let outcome :=
    validate_transaction_structure best_match message transaction w in
  (accepted outcome →
     ∃ d v n, transaction = VDict d ∧ d !! "categoryId" = Some v
              ∧ integer_value v = Some n ∧ (1 ≤ n ≤ 20)%Z)
  ∧ (∀ d v, transaction = VDict d → d !! "categoryId" = Some v →
       (integer_value v = None
        ∨ ∃ n, integer_value v = Some n ∧ (n < 1 ∨ 20 < n)%Z) →
       validation_failure message w outcome).
Proof.
  intros outcome. split.
  - intros Hacc. apply accepted_no_errors, iter_errors_nil in Hacc
      as (d & -> & Hreq & Hprops & _).
    apply required_errors_nil in Hreq. rewrite Forall_forall in Hreq.
    destruct (Hreq "categoryId" categoryId_required) as [v Hv].
    eapply properties_errors_nil in Hprops;
      [|exact categoryId_property|exact Hv].
    apply categoryId_errors_nil in Hprops as (n & Hn & Hrange).
    by exists d, v, n.
  - intros d v -> Hv Hbad. apply validate_transaction_structure_errors.
    rewrite iter_errors_object. intros H.
    apply app_eq_nil in H as [_ H]. apply app_eq_nil in H as [Hprops _].
    eapply properties_errors_nil in Hprops;
      [|exact categoryId_property|exact Hv].
    apply categoryId_errors_nil in Hprops as (n & Hn & Hrange).
    destruct Hbad as [Hnone | (n' & Hn' & Hout)]; [congruence|].
    assert (n' = n) as -> by congruence. lia.
Qed.

(** C3 fails as stated: no eleven distinct fields are all required.  The
    sample record has the ten listed fields and no other, and is accepted. *)
Lemma no_eleven_required_fields :
  ¬ ∃ fields : list string,
      NoDup fields ∧ length fields = 11%nat
      ∧ ∀ transaction,
          accepted (validate_transaction_structure first_error no_message
                      transaction (empty_world [])) →
          ∃ d, transaction = VDict d ∧ Forall (λ f, is_Some (d !! f)) fields.
Proof.
  intros (fields & Hnd & Hlen & Hreq).
  destruct (Hreq sample_transaction) as (d & [= <-] & Hall); [done|].
  assert (length fields ≤ 10)%nat as Hle; [|lia].
  apply (submseteq_length fields (required transaction_schema)).
  apply NoDup_submseteq; [done|]. intros f Hf.
  rewrite Forall_forall in Hall. destruct (Hall f Hf) as [v Hv].
  repeat (apply lookup_insert_Some in Hv as [[<- _]|[_ Hv]]; [listed|]).
  by rewrite lookup_empty in Hv.
Qed.

(** ** The theorems at concrete inputs *)

Lemma placement_check_pending_first_witness :
  let ts := [entry "Pending" "2025-06-05T09:00:00Z";
             entry "Booked" "2025-06-04T10:15:00Z"] in
  Forall (λ t, has_status "Pending" t ∨ has_status "Booked" t) ts
  ∧ (placement_check (subsequence "Pending" ts) (World [] ts)
       = (Return (), World [] ts)
     ↔ ¬ booked_before_pending ts).
Proof.
  intros ts.
  assert (Forall (λ t, has_status "Pending" t ∨ has_status "Booked" t) ts) as H.
  { apply List.Forall_cons; [left; eexists; split; reflexivity|].
    apply List.Forall_cons; [right; eexists; split; reflexivity|].
    apply List.Forall_nil. }
  split; [exact H|].
  exact (proj1 (proj2 (proj2 (placement_check_pending_first ts [] H)))).
Defined.

Lemma success_implies_non_increasing_witness :
  let ts := [entry "Pending" "2025-06-05T09:00:00Z";
             entry "Booked" "2025-06-04T10:15:00Z";
             entry "Booked" "2025-06-04T12:14:00+02:00"] in
  validate_transaction_ordering read_timestamp (World [] ts)
    = (Return (), World [] ts)
  ∧ non_increasing read_timestamp (subsequence "Pending" ts)
  ∧ non_increasing read_timestamp (subsequence "Booked" ts).
Proof.
  intros ts.
  assert (validate_transaction_ordering read_timestamp (World [] ts)
            = (Return (), World [] ts)) as H by (vm_compute; reflexivity).
  split; [exact H|].
  apply (success_implies_non_increasing read_timestamp ts [] (World [] ts));
    [simpl; lia | exact H].
Defined.

Lemma short_lists_always_pass_witness :
  (length [VInt 7] ≤ 1)%nat
  ∧ validate_transaction_ordering read_timestamp (World [] [VInt 7])
      = (Return (), World [] [VInt 7]).
Proof.
  split; [simpl; lia|].
  apply (short_lists_always_pass read_timestamp [VInt 7] []). simpl. lia.
Defined.

Lemma assertion_failure_logged_then_reraised_witness :
  let ts := [entry "Booked" "2025-06-04T10:15:00Z";
             entry "Pending" "2025-06-05T09:00:00Z"] in
  ordering_checks read_timestamp (World [] ts)
    = (Raise (AssertionError ""), World [] ts)
  ∧ validate_transaction_ordering read_timestamp (World [] ts)
      = (Raise (AssertionError ""),
         World [LogError "❌ Assertion failed "] ts).
Proof.
  intros ts.
  assert (ordering_checks read_timestamp (World [] ts)
            = (Raise (AssertionError ""), World [] ts)) as H
    by (vm_compute; reflexivity).
  split; [exact H|].
  exact (assertion_failure_logged_then_reraised read_timestamp _ _ _ H).
Defined.

Lemma unreadable_timestamp_bypasses_handler_witness :
  let ts := [entry "Booked" "yesterday";
             entry "Booked" "2025-06-04T10:15:00Z"] in
  read_timestamp (replace_Z "yesterday") = None
  ∧ validate_transaction_ordering read_timestamp (World [] ts)
      = (Raise ValueError, World [] ts).
Proof.
  intros ts. split; [reflexivity|].
  refine (proj1 (unreadable_timestamp_bypasses_handler read_timestamp
                   "Booked" "yesterday" (entry "Booked" "2025-06-04T10:15:00Z")
                   [] _ _ _)).
  - right. reflexivity.
  - eexists. split; reflexivity.
  - reflexivity.
Defined.

Lemma named_parameters_normalized_witness :
  let kwargs : gmap string value :=
    {[ "includePending" := VBool false; "categoryId" := VInt 11 ]} in
  params (make_request None ∅ (VStr "746c51bc") kwargs) !! "includePending"
    = Some (VStr "false")
  ∧ params (make_request None ∅ (VStr "746c51bc") kwargs) !! "categoryId"
    = Some (VInt 11).
Proof.
  intros kwargs. split.
  - apply (named_parameters_normalized None ∅ (VStr "746c51bc") kwargs
             "includePending" (VBool false)); [reflexivity | discriminate].
  - apply (named_parameters_normalized None ∅ (VStr "746c51bc") kwargs
             "categoryId" (VInt 11)); [reflexivity | discriminate].
Defined.

Lemma all_ten_fields_required_witness :
  accepted (validate_transaction_structure first_error no_message
              sample_transaction (empty_world []))
  ∧ ∃ d, sample_transaction = VDict d
         ∧ Forall (λ f, is_Some (d !! f))
             ["transactionId"; "amount"; "currency"; "merchantName";
              "timestamp"; "type"; "subType"; "status"; "categoryId";
              "description"].
Proof.
  assert (accepted (validate_transaction_structure first_error no_message
                      sample_transaction (empty_world []))) as H
    by reflexivity.
  split; [exact H|].
  exact (proj1 (all_ten_fields_required first_error no_message
                  sample_transaction (empty_world [])) H).
Defined.

Lemma unknown_field_rejected_witness :
  let d : gmap string value :=
    {[ "status" := VStr "Booked"; "nickname" := VStr "x" ]} in
  is_Some (d !! "nickname")
  ∧ validation_failure no_message (empty_world [])
      (validate_transaction_structure first_error no_message (VDict d)
         (empty_world [])).
Proof.
  intros d.
  assert (is_Some (d !! "nickname")) as H by (eexists; reflexivity).
  split; [exact H|].
  apply (unknown_field_rejected first_error no_message d "nickname"
           (empty_world []) H).
  intros Hin.
  repeat (apply elem_of_cons in Hin as [Hin|Hin]; [discriminate Hin|]).
  exact (proj1 (elem_of_nil _) Hin).
Defined.

Lemma categoryId_integer_in_range_witness :
  accepted (validate_transaction_structure first_error no_message
              sample_transaction (empty_world []))
  ∧ ∃ d v n, sample_transaction = VDict d ∧ d !! "categoryId" = Some v
             ∧ integer_value v = Some n ∧ (1 ≤ n ≤ 20)%Z.
Proof.
  assert (accepted (validate_transaction_structure first_error no_message
                      sample_transaction (empty_world []))) as H
    by reflexivity.
  split; [exact H|].
  exact (proj1 (categoryId_integer_in_range first_error no_message
                  sample_transaction (empty_world [])) H).
Defined.

(** ** The helpers run on small inputs *)

Example ordering_ties_pass :
  let ts := [entry "Pending" "2025-06-05T09:00:00Z";
             entry "Pending" "2025-06-05T09:00:00Z"] in
  validate_transaction_ordering read_timestamp (World [] ts)
    = (Return (), World [] ts).
Proof. vm_compute. reflexivity. Qed.

Example ordering_ascending_fails :
  let ts := [entry "Booked" "2025-06-04T10:14:00Z";
             entry "Booked" "2025-06-04T10:15:00Z"] in
  validate_transaction_ordering read_timestamp (World [] ts)
    = (Raise (AssertionError ""), World [LogError "❌ Assertion failed "] ts).
Proof. vm_compute. reflexivity. Qed.

(** A naive and an aware timestamp do not compare: [TypeError], unlogged. *)
Example ordering_naive_against_aware :
  let ts := [entry "Booked" "2025-06-04T10:15:00";
             entry "Booked" "2025-06-04T10:15:00Z"] in
  validate_transaction_ordering read_timestamp (World [] ts)
    = (Raise TypeError, World [] ts).
Proof. vm_compute. reflexivity. Qed.

Example ordering_missing_status :
  let ts := [VDict ∅; entry "Booked" "2025-06-04T10:15:00Z"] in
  validate_transaction_ordering read_timestamp (World [] ts)
    = (Raise (KeyError "status"), World [] ts).
Proof. vm_compute. reflexivity. Qed.

Example ordering_timestamp_not_a_string :
  let ts := [VDict {[ "status" := VStr "Booked"; "timestamp" := VInt 0 ]};
             entry "Booked" "2025-06-04T10:15:00Z"] in
  validate_transaction_ordering read_timestamp (World [] ts)
    = (Raise AttributeError, World [] ts).
Proof. vm_compute. reflexivity. Qed.

Example request_for_fixture_customer :
  params (make_request None ∅ (VStr "746c51bc")
            {[ "includePending" := VBool true ]})
    = {[ "customerId" := VStr "746c51bc"; "includePending" := VStr "true" ]}.
Proof. vm_compute. reflexivity. Qed.

Example request_with_conflicting_keyword :
  params (make_request None ∅ (VStr "abc") {[ "customerId" := VStr "xyz" ]})
    = {[ "customerId" := VStr "abc" ]}.
Proof. vm_compute. reflexivity. Qed.

Example schema_accepts_sample :
  iter_errors transaction_schema sample_transaction = [].
Proof. reflexivity. Qed.

Example schema_integral_float_categoryId :
  property_errors "categoryId"
    (PropertySchema [T_integer] None None (Some 1%Z) (Some 20%Z))
    (VFloat (Finite (11 # 1))) = [].
Proof. reflexivity. Qed.

Example schema_categoryId_out_of_range :
  property_errors "categoryId"
    (PropertySchema [T_integer] None None (Some 1%Z) (Some 20%Z))
    (VInt 21) = [AboveMaximum "categoryId" (VInt 21) 20].
Proof. reflexivity. Qed.

Example schema_boolean_categoryId :
  property_errors "categoryId"
    (PropertySchema [T_integer] None None (Some 1%Z) (Some 20%Z))
    (VBool true) = [NotOfType (Some "categoryId") (VBool true)].
Proof. reflexivity. Qed.

Example schema_rejects_empty_object :
  length (iter_errors transaction_schema (VDict ∅)) = 10%nat.
Proof. reflexivity. Qed.

(** * Further properties of the helpers *)

(** ** Outcomes of sequences and loops *)

Lemma outcome_in_Return {A} (P : exn → Prop) (m : M A) w :
  outcome_in P (m w) → (∀ e w', m w ≠ (Raise e, w')) → ∃ a w', m w = (Return a, w').
Proof.
  unfold outcome_in. destruct (m w) as [[a|e] w'] eqn:E; intros _ Hno.
  - eauto.
  - by destruct (Hno e w').
Qed.

Lemma outcome_in_bind {A B} (P : exn → Prop) (m : M A) (k : A → M B) w :
  preserves m →
  outcome_in P (m w) →
  (∀ a, m w = (Return a, w) → outcome_in P (k a w)) →
  outcome_in P ((m ≫= k) w).
Proof.
  intros Hpres Hm Hk. unfold outcome_in, mbind, M_bind, bind in *.
  destruct (m w) as [[a|e] w'] eqn:E.
  - apply Hpres in E as Hw. subst w'. by apply Hk.
  - done.
Qed.

Lemma outcome_in_for_each {A} (P : exn → Prop) (xs : list A) (body : A → M unit) w :
  (∀ x, preserves (body x)) →
  (∀ x, x ∈ xs → outcome_in P (body x w)) →
  outcome_in P (for_each xs body w).
Proof.
  intros Hpres. induction xs as [|x xs IH]; intros Hbody; [done|].
  simpl. apply outcome_in_bind; [done| |].
  - apply Hbody. by left.
  - intros _ _. apply IH. intros y Hy. apply Hbody. by right.
Qed.

Lemma outcome_in_weaken {A} (P Q : exn → Prop) (outcome : result A * world) :
  (∀ e, P e → Q e) → outcome_in P outcome → outcome_in Q outcome.
Proof. unfold outcome_in. destruct (outcome.1); auto. Qed.

(** An outcome that is not a normal return, in a computation that leaves
    the world alone and raises only [e0], is [e0] in the same world. *)
Lemma outcome_in_single (m : M unit) e0 w :
  preserves m →
  outcome_in (λ e, e = e0) (m w) →
  m w ≠ (Return (), w) →
  m w = (Raise e0, w).
Proof.
  intros Hpres Hout Hno. unfold outcome_in in Hout.
  destruct (m w) as [[[]|e] w'] eqn:E; apply Hpres in E as Hw; subst w'.
  - done.
  - simpl in Hout. by subst e.
Qed.

(** ** The ordering validator: what it changes *)

(** X1. Whatever the outcome, the ordering validator leaves the list object
    as it was, and the log grows by exactly one error line when the outcome
    is an assertion failure and not at all otherwise. *)
Theorem ordering_validator_frame
    (fromisoformat : string → option datetime) (w : world) :
  let outcome := validate_transaction_ordering fromisoformat w in
  transactions outcome.2 = transactions w
  ∧ logged outcome.2 =
      match outcome.1 with
      | Raise (AssertionError msg) => logged w ++ [assertion_line msg]
      | _ => logged w
      end.
Proof.
  intros outcome. subst outcome.
  rewrite validate_transaction_ordering_unfold.
  destruct (ordering_checks fromisoformat w) as [[[]|e] w'] eqn:E;
    apply preserves_ordering_checks in E as ->; [done|].
  by destruct e.
Qed.

(** ** The ordering validator: when it succeeds *)

Lemma subsequence_not_pending ts :
  Forall (λ t, ¬ has_status "Pending" t) ts → subsequence "Pending" ts = [].
Proof.
  induction 1 as [|t ts Ht _ IH]; [done|].
  unfold subsequence in *. simpl.
  destruct (status_is "Pending" t) eqn:E; [|done].
  by apply status_is_has_status in E.
Qed.

Lemma subsequence_nil_not_pending ts :
  subsequence "Pending" ts = [] → Forall (λ t, ¬ has_status "Pending" t) ts.
Proof.
  induction ts as [|t ts IH]; [constructor|].
  unfold subsequence in *. simpl.
  destruct (status_is "Pending" t) eqn:E; [discriminate|].
  intros H. constructor; [|auto].
  intros Ht%status_is_has_status. congruence.
Qed.

(** The first [len(pending)] elements are Pending exactly when the Pending
    elements come first. *)
Lemma leading_pending_iff_first ts :
  (∀ i, (i < length (subsequence "Pending" ts))%nat →
        ∃ t, ts !! i = Some t ∧ has_status "Pending" t)
  ↔ pending_first ts.
Proof.
  split.
  - induction ts as [|t ts IH]; intros Hlead.
    + exists [], []. by repeat split.
    + destruct (status_is "Pending" t) eqn:E.
      * destruct IH as (ps & rest & -> & Hps & Hrest).
        { intros i Hi. apply (Hlead (S i)).
          unfold subsequence in *. simpl. rewrite E. simpl. lia. }
        exists (t :: ps), rest. repeat split; [|done].
        constructor; [by apply status_is_has_status | done].
      * destruct (subsequence "Pending" ts) as [|p more] eqn:Esub.
        -- exists [], (t :: ts). repeat split; [done|].
           apply subsequence_nil_not_pending.
           unfold subsequence in *. simpl. by rewrite E.
        -- destruct (Hlead 0%nat) as (t' & [= <-] & Hp).
           { unfold subsequence in *. simpl. rewrite E, Esub. simpl. lia. }
           apply status_is_has_status in Hp. congruence.
  - intros (ps & rest & -> & Hps & Hrest) i Hi.
    rewrite subsequence_app, subsequence_all, subsequence_not_pending in Hi by done.
    rewrite length_app, Nat.add_0_r in Hi.
    destruct (lookup_lt_is_Some_2 ps i Hi) as [t Ht].
    exists t. split.
    + by rewrite lookup_app_l.
    + by eapply Forall_lookup_1.
Qed.

Lemma misplaced_not_pending_first ts : misplaced ts → ¬ pending_first ts.
Proof.
  intros (i & j & a & b & Hij & Ha & Hb & Hna & Hpb) (ps & rest & -> & Hps & Hrest).
  destruct (decide (i < length ps)%nat) as [Hi|Hi].
  - rewrite lookup_app_l in Ha by done.
    apply Hna. by eapply Forall_lookup_1.
  - rewrite lookup_app_r in Hb by lia.
    eapply Forall_lookup_1 in Hrest; [|exact Hb]. done.
Qed.

Section OrderingOutcomes.

Variable fromisoformat : string → option datetime.

Lemma parsed_timestamp_reads x t w :
  timestamp_reads fromisoformat x t →
  parsed_timestamp fromisoformat x w = (Return t, w).
Proof.
  intros (d & s & -> & Hd & Hs). unfold parsed_timestamp.
  erewrite bind_Return by (simpl; by rewrite Hd).
  erewrite bind_Return by reflexivity.
  unfold fromisoformat_call. by rewrite Hs.
Qed.

(** The outcome of one comparison once both timestamps read. *)
Lemma descending_at_reads group i a b t1 t2 w :
  group !! i = Some a → group !! S i = Some b →
  timestamp_reads fromisoformat a t1 →
  timestamp_reads fromisoformat b t2 →
  descending_at fromisoformat group i w =
    (match datetime_ge t1 t2 with
     | Some true => Return ()
     | Some false => Raise (AssertionError "")
     | None => Raise TypeError
     end, w).
Proof.
  intros Ha Hb Ht1 Ht2. unfold descending_at.
  erewrite bind_Return by (unfold getitem_index; by rewrite Ha).
  erewrite bind_Return by by apply parsed_timestamp_reads.
  erewrite bind_Return
    by (unfold getitem_index; rewrite Nat.add_1_r; by rewrite Hb).
  erewrite bind_Return by by apply parsed_timestamp_reads.
  unfold ge_call. destruct (datetime_ge t1 t2) as [[]|]; done.
Qed.

Lemma group_loop_non_increasing group w :
  non_increasing fromisoformat group →
  for_each (range (len group - 1)) (descending_at fromisoformat group) w
    = (Return (), w).
Proof.
  intros Hgroup. apply for_each_Return_iff; [apply preserves_descending_at|].
  apply Forall_forall. intros i Hi. apply elem_of_range in Hi. unfold len in Hi.
  destruct (lookup_lt_is_Some_2 group i) as [a Ha]; [lia|].
  destruct (lookup_lt_is_Some_2 group (S i)) as [b Hb]; [lia|].
  destruct (Hgroup i a b Ha Hb) as (t1 & t2 & Ht1 & Ht2 & Hge).
  erewrite descending_at_reads by done.
  apply datetime_ge_not_earlier in Hge. by rewrite Hge.
Qed.

(** The checks on a list of at least two elements, as a whole. *)
Lemma ordering_checks_Return_iff (ts : list value) (log : list log_record) :
  (2 ≤ length ts)%nat →
  ordering_checks fromisoformat (World log ts) = (Return (), World log ts)
  ↔ Forall has_status_field ts
    ∧ pending_first ts
    ∧ non_increasing fromisoformat (subsequence "Pending" ts)
    ∧ non_increasing fromisoformat (subsequence "Booked" ts).
Proof.
  intros Hlen. rewrite ordering_checks_long by done. simpl. split.
  - intros H.
    apply bind_inv_Return in H as (pending & w1 & Hp & H).
    apply bind_inv_Return in H as (booked & w2 & Hb & H).
    apply bind_inv_Return in H as ([] & w3 & Hplace & H).
    apply with_status_Return in Hp as (Hfields & -> & ->).
    apply with_status_Return in Hb as (_ & -> & ->).
    pose proof Hplace as E.
    apply preserves_placement_check in E as ->.
    unfold monotonicity_check in H. cbn [for_each] in H.
    apply bind_inv_Return in H as ([] & w4 & H1 & H).
    apply bind_inv_Return in H as ([] & w5 & H2 & _).
    pose proof H1 as E1.
    apply preserves_for_each in E1 as ->; [|apply preserves_descending_at].
    pose proof H2 as E2.
    apply preserves_for_each in E2 as ->; [|apply preserves_descending_at].
    repeat split; [done| | |].
    + apply leading_pending_iff_first.
      by apply (placement_check_Return_iff ts log).
    + by eapply group_loop_Return.
    + by eapply group_loop_Return.
  - intros (Hfields & Hfirst & Hp & Hb).
    erewrite bind_Return by (by apply with_status_Return).
    erewrite bind_Return by (by apply with_status_Return).
    erewrite bind_Return;
      [|by apply placement_check_Return_iff, leading_pending_iff_first].
    unfold monotonicity_check. cbn [for_each].
    erewrite bind_Return by by apply group_loop_non_increasing.
    erewrite bind_Return by by apply group_loop_non_increasing.
    done.
Qed.

(** X2. On a list of at least two elements the ordering validator returns
    normally exactly when every element is an object with a [status] field,
    the Pending elements come first, and the Pending and the Booked
    subsequences each have non-increasing timestamps. *)
Theorem ordering_succeeds_iff (ts : list value) (log : list log_record) :
  (2 ≤ length ts)%nat →
  validate_transaction_ordering fromisoformat (World log ts)
    = (Return (), World log ts)
  ↔ Forall has_status_field ts
    ∧ pending_first ts
    ∧ non_increasing fromisoformat (subsequence "Pending" ts)
    ∧ non_increasing fromisoformat (subsequence "Booked" ts).
Proof.
  intros Hlen. rewrite <- (ordering_checks_Return_iff ts log Hlen). split.
  - apply validate_transaction_ordering_Return.
  - intros H. rewrite validate_transaction_ordering_unfold. by rewrite H.
Qed.

End OrderingOutcomes.

(** ** The ordering validator: how it fails *)

Lemma subsequence_length_le s ts :
  (length (subsequence s ts) ≤ length ts)%nat.
Proof.
  unfold subsequence. induction ts as [|t ts IH]; simpl; [done|].
  destruct (status_is s t); simpl; lia.
Qed.

(** The placement loop either passes or stops at a failed assertion. *)
Lemma placement_check_outcome ts log :
  Forall has_status_field ts →
  outcome_in (λ e, e = AssertionError "")
    (placement_check (subsequence "Pending" ts) (World log ts)).
Proof.
  intros Hfields. unfold placement_check.
  apply outcome_in_for_each; [intros ?; preserves_tac|].
  intros i Hi. apply elem_of_range in Hi. unfold len in Hi.
  pose proof (subsequence_length_le "Pending" ts).
  destruct (lookup_lt_is_Some_2 ts i) as [t Ht]; [lia|].
  pose proof (Forall_lookup_1 _ _ _ _ Hfields Ht) as (d & st & -> & Hd).
  erewrite bind_Return by reflexivity.
  erewrite bind_Return by (unfold getitem_index; simpl; by rewrite Ht).
  erewrite bind_Return by (simpl; by rewrite Hd).
  unfold outcome_in, assert_. by destruct (py_eq_str st "Pending").
Qed.

Lemma subsequence_not_pending_booked ts :
  Forall (has_status "Pending") ts → subsequence "Booked" ts = [].
Proof.
  induction 1 as [|t ts Ht _ IH]; [done|].
  unfold subsequence in *. simpl.
  destruct (status_is "Booked" t) eqn:E; [|done].
  apply status_is_has_status in E. by destruct (has_status_exclusive t).
Qed.

Lemma with_status_Raise status pre t post e w :
  Forall has_status_field pre →
  getitem t "status" w = (Raise e, w) →
  with_status status (pre ++ t :: post) w = (Raise e, w).
Proof.
  intros Hpre Ht. induction Hpre as [|x pre (d & st & -> & Hd) _ IH]; simpl.
  - by erewrite bind_Raise.
  - erewrite bind_Return by (simpl; by rewrite Hd).
    by erewrite bind_Raise.
Qed.

Section OrderingErrors.

Variable fromisoformat : string → option datetime.

(** X3. When every element has a [status] field and some element that is
    not Pending sits before a Pending one, the validator raises an assertion
    failure and logs it once, whatever the timestamps are (they are never
    looked at). *)
Theorem misplaced_element_rejected (ts : list value) (log : list log_record) :
  Forall has_status_field ts →
  misplaced ts →
  validate_transaction_ordering fromisoformat (World log ts)
    = (Raise (AssertionError ""), World (log ++ [assertion_line ""]) ts).
Proof.
  intros Hfields Hmis.
  assert (2 ≤ length ts)%nat as Hlen.
  { destruct Hmis as (i & j & a & b & Hij & _ & Hb & _).
    apply lookup_lt_Some in Hb. lia. }
  rewrite validate_transaction_ordering_unfold.
  rewrite ordering_checks_long by done. simpl.
  erewrite bind_Return by (by apply with_status_Return).
  erewrite bind_Return by (by apply with_status_Return).
  assert (placement_check (subsequence "Pending" ts) (World log ts)
            = (Raise (AssertionError ""), World log ts)) as Hplace.
  { apply outcome_in_single.
    - apply preserves_placement_check.
    - by apply placement_check_outcome.
    - intros H. apply (misplaced_not_pending_first ts Hmis).
      apply leading_pending_iff_first.
      by apply (placement_check_Return_iff ts log). }
  by erewrite bind_Raise by exact Hplace.
Qed.

(** X4. On a list of at least two elements, the first element whose
    [status] cannot be read stops the validator: [KeyError] when it is an
    object without the field, [TypeError] when it is not an object.  Nothing
    is logged. *)
Theorem unreadable_status_propagates
    (pre post : list value) (t : value) (e : exn) (log : list log_record) :
  let ts := pre ++ t :: post in
  (2 ≤ length ts)%nat →
  Forall has_status_field pre →
  match t with
  | VDict d => d !! "status" = None ∧ e = KeyError "status"
  | _ => e = TypeError
  end →
  validate_transaction_ordering fromisoformat (World log ts)
    = (Raise e, World log ts).
Proof.
  intros ts Hlen Hpre Ht.
  assert (getitem t "status" (World log ts) = (Raise e, World log ts)) as Hget.
  { destruct t as [| | | | | |d]; simpl; try by subst e.
    destruct Ht as [-> ->]. done. }
  rewrite validate_transaction_ordering_unfold.
  rewrite ordering_checks_long by done. simpl.
  erewrite bind_Raise; [|by apply with_status_Raise].
  destruct t as [| | | | | |d]; try by subst e.
  by destruct Ht as [_ ->].
Qed.

(** The checks on a two-element list of one status come down to the one
    comparison of its two timestamps. *)
Lemma ordering_checks_pair status a b log :
  status = "Pending" ∨ status = "Booked" →
  has_status status a → has_status status b →
  let w := World log [a; b] in
  ordering_checks fromisoformat w =
    (descending_at fromisoformat [a; b] 0;; mret ()) w.
Proof.
  intros Hstatus Ha Hb w.
  assert (Forall (has_status status) [a; b]) as Hall by by repeat constructor.
  assert (Forall has_status_field [a; b]) as Hfields.
  { eapply Forall_impl; [exact Hall|]. apply has_status_has_field. }
  rewrite ordering_checks_long by (simpl; lia).
  change (transactions w) with [a; b].
  erewrite bind_Return by (by apply with_status_Return).
  erewrite bind_Return by (by apply with_status_Return).
  assert (placement_check (subsequence "Pending" [a; b]) w = (Return (), w)) as Hplace.
  { apply placement_check_Return_iff, leading_pending_iff_first.
    destruct Hstatus as [-> | ->].
    - exists [a; b], []. split; [done | split; [done | constructor]].
    - exists [], [a; b]. split; [done | split; [constructor|]].
      eapply Forall_impl; [exact Hall|].
      intros t Hbooked Hpending. by apply (has_status_exclusive t). }
  erewrite bind_Return by exact Hplace.
  unfold monotonicity_check. cbn [for_each].
  destruct Hstatus as [-> | ->].
  - rewrite (subsequence_all "Pending" [a; b]) by done.
    rewrite (subsequence_not_pending_booked [a; b]) by done.
    change (range (len [a; b] - 1)) with [0%nat].
    change (range (len (@nil value) - 1)) with (@nil nat).
    cbn [for_each]. unfold mbind, mret, M_bind, M_ret, bind, ret.
    destruct (descending_at fromisoformat [a; b] 0 w) as [[[]|e] w']; done.
  - rewrite (subsequence_none [a; b]) by done.
    rewrite (subsequence_all "Booked" [a; b]) by done.
    change (range (len [a; b] - 1)) with [0%nat].
    change (range (len (@nil value) - 1)) with (@nil nat).
    cbn [for_each]. unfold mbind, mret, M_bind, M_ret, bind, ret.
    destruct (descending_at fromisoformat [a; b] 0 w) as [[[]|e] w']; done.
Qed.

End OrderingErrors.

(** X5. Two records of the same status whose timestamps both read: the
    validator passes when the first is not earlier than the second, raises a
    logged assertion failure when it is earlier, and raises an unlogged
    [TypeError] when one reading is naive and the other aware. *)
Theorem pair_decided_by_comparison
    (fromisoformat : string → option datetime)
    (status : string) (a b : value) (t1 t2 : datetime)
    (log : list log_record) :
  status = "Pending" ∨ status = "Booked" →
  has_status status a → has_status status b →
  timestamp_reads fromisoformat a t1 →
  timestamp_reads fromisoformat b t2 →
  validate_transaction_ordering fromisoformat (World log [a; b]) =
    match datetime_ge t1 t2 with
    | Some true => (Return (), World log [a; b])
    | Some false =>
        (Raise (AssertionError ""), World (log ++ [assertion_line ""]) [a; b])
    | None => (Raise TypeError, World log [a; b])
    end.
Proof.
  intros Hstatus Ha Hb Ht1 Ht2.
  rewrite validate_transaction_ordering_unfold.
  rewrite (ordering_checks_pair fromisoformat status) by done.
  unfold mbind, mret, M_bind, M_ret, bind, ret.
  erewrite descending_at_reads by done.
  by destruct (datetime_ge t1 t2) as [[]|].
Qed.

(** *** At concrete inputs *)

Lemma ordering_succeeds_iff_witness :
  let ts := [entry "Pending" "2025-06-05T09:00:00Z";
             VDict {[ "status" := VStr "Cancelled" ]};
             entry "Booked" "2025-06-04T10:15:00Z"] in
  (2 ≤ length ts)%nat
  ∧ Forall has_status_field ts
  ∧ pending_first ts
  ∧ non_increasing read_timestamp (subsequence "Pending" ts)
  ∧ non_increasing read_timestamp (subsequence "Booked" ts).
Proof.
  intros ts.
  assert (2 ≤ length ts)%nat as Hlen by (simpl; lia).
  split; [exact Hlen|].
  apply (proj1 (ordering_succeeds_iff read_timestamp ts [] Hlen)).
  vm_compute. reflexivity.
Defined.

Lemma misplaced_element_rejected_witness :
  let ts := [VDict {[ "status" := VStr "Cancelled" ]};
             VDict {[ "status" := VStr "Pending" ]}] in
  misplaced ts
  ∧ validate_transaction_ordering read_timestamp (World [] ts)
      = (Raise (AssertionError ""), World [assertion_line ""] ts).
Proof.
  intros ts.
  assert (misplaced ts) as Hmis.
  { exists 0%nat, 1%nat, (VDict {[ "status" := VStr "Cancelled" ]}),
      (VDict {[ "status" := VStr "Pending" ]}).
    split; [lia|]. split; [reflexivity|]. split; [reflexivity|]. split.
    - intros (d & Hd & Hs). injection Hd as <-. discriminate Hs.
    - eexists. split; reflexivity. }
  split; [exact Hmis|].
  apply (misplaced_element_rejected read_timestamp ts []); [|exact Hmis].
  apply List.Forall_cons; [eexists _, _; split; reflexivity|].
  apply List.Forall_cons; [eexists _, _; split; reflexivity|].
  apply List.Forall_nil.
Defined.

Lemma unreadable_status_propagates_witness :
  let ts := [entry "Booked" "2025-06-04T10:15:00Z"; VDict ∅; VNone] in
  validate_transaction_ordering read_timestamp (World [] ts)
    = (Raise (KeyError "status"), World [] ts).
Proof.
  intros ts.
  apply (unreadable_status_propagates read_timestamp
           [entry "Booked" "2025-06-04T10:15:00Z"] [VNone] (VDict ∅)
           (KeyError "status") []).
  - simpl. lia.
  - apply List.Forall_cons; [eexists _, _; split; reflexivity|].
    apply List.Forall_nil.
  - split; reflexivity.
Defined.

Lemma pair_decided_by_comparison_witness :
  let ts := [entry "Booked" "2025-06-04T10:15:00";
             entry "Booked" "2025-06-04T10:15:00Z"] in
  validate_transaction_ordering read_timestamp (World [] ts)
    = (Raise TypeError, World [] ts).
Proof.
  intros ts.
  refine (pair_decided_by_comparison read_timestamp "Booked"
            (entry "Booked" "2025-06-04T10:15:00")
            (entry "Booked" "2025-06-04T10:15:00Z")
            (Datetime 63884715300000000 None)
            (Datetime 63884715300000000 (Some 0%Z)) [] _ _ _ _ _).
  - right. reflexivity.
  - eexists. split; reflexivity.
  - eexists. split; reflexivity.
  - eexists _, _. split; [reflexivity|]. split; reflexivity.
  - eexists _, _. split; [reflexivity|]. split; reflexivity.
Defined.

(** ** The request builder: the whole map *)

Lemma normalized_not_bool v b : normalized v ≠ VBool b.
Proof. by destruct v. Qed.

Lemma normalized_idemp v : normalized (normalized v) = normalized v.
Proof. by destruct v. Qed.

(** The loop is the value-wise normalisation of the dictionary. *)
Lemma normalize_params_fmap (params : gmap string value) :
  normalize_params params = normalized <$> params.
Proof.
  apply map_eq. intros k. by rewrite normalize_params_lookup, lookup_fmap.
Qed.

(** X6. No native boolean is ever sent: whatever the customer identifier and
    the keyword parameters, no value of the produced query-parameter map is a
    boolean. *)
Theorem no_boolean_is_sent
    (url : option string) (hdrs : gmap string (option string))
    (customer_id : value) (kwargs : gmap string value)
    (k : string) (v : value) :
  params (make_request url hdrs customer_id kwargs) !! k = Some v →
  ∀ b, v ≠ VBool b.
Proof.
  rewrite make_request_lookup. intros H b.
  destruct (<["customerId" := customer_id]> kwargs !! k) as [v'|]; [|done].
  injection H as <-. apply normalized_not_bool.
Qed.

(** X7. The produced map has exactly the keys of the keyword parameters plus
    [customerId]: no parameter is dropped and none is invented. *)
Theorem request_keys
    (url : option string) (hdrs : gmap string (option string))
    (customer_id : value) (kwargs : gmap string value) :
  dom (params (make_request url hdrs customer_id kwargs))
    = {[ "customerId" ]} ∪ dom kwargs.
Proof.
  unfold make_request. simpl.
  by rewrite normalize_params_fmap, dom_fmap_L, dom_insert_L.
Qed.

(** X8. Building a request from the parameters of an already built request,
    for the same customer, changes nothing: the normalisation is
    idempotent. *)
Theorem make_request_idempotent
    (url : option string) (hdrs : gmap string (option string))
    (customer_id : value) (kwargs : gmap string value) :
  make_request url hdrs customer_id
    (params (make_request url hdrs customer_id kwargs))
  = make_request url hdrs customer_id kwargs.
Proof.
  unfold make_request. simpl. f_equal.
  rewrite !normalize_params_fmap. apply map_eq. intros k.
  rewrite !lookup_fmap.
  destruct (decide (k = "customerId")) as [->|Hne].
  - by rewrite !lookup_insert_eq.
  - rewrite !lookup_insert_ne, lookup_fmap, lookup_insert_ne by done.
    destruct (kwargs !! k) as [v|]; simpl; [|done].
    by rewrite normalized_idemp.
Qed.

Lemma no_boolean_is_sent_witness :
  let kwargs : gmap string value := {[ "includePending" := VBool true ]} in
  params (make_request None ∅ (VBool false) kwargs) !! "includePending"
    = Some (VStr "true")
  ∧ ∀ b, VStr "true" ≠ VBool b.
Proof.
  intros kwargs.
  assert (params (make_request None ∅ (VBool false) kwargs) !! "includePending"
            = Some (VStr "true")) as H by reflexivity.
  split; [exact H|].
  exact (no_boolean_is_sent None ∅ (VBool false) kwargs "includePending"
           (VStr "true") H).
Defined.

(** ** The schema validator: exactly what it accepts *)

Lemma string_property_nil name fmt v :
  property_errors name (PropertySchema [T_string] fmt None None None) v = []
  ↔ ∃ s, v = VStr s.
Proof.
  unfold property_errors. cbn [p_type p_enum p_minimum p_maximum existsb app].
  rewrite orb_false_r, app_nil_r. split.
  - destruct v; simpl; try discriminate. eauto.
  - by intros [s ->].
Qed.

Lemma number_property_nil name v :
  property_errors name (of_type [T_number]) v = []
  ↔ is_type v T_number = true.
Proof.
  unfold property_errors, of_type.
  cbn [p_type p_enum p_minimum p_maximum existsb app].
  rewrite orb_false_r, app_nil_r.
  destruct (is_type v T_number); split; done.
Qed.

Lemma string_or_null_property_nil name v :
  property_errors name (of_type [T_string; T_null]) v = []
  ↔ v = VNone ∨ ∃ s, v = VStr s.
Proof.
  unfold property_errors, of_type.
  cbn [p_type p_enum p_minimum p_maximum existsb app].
  rewrite orb_false_r, app_nil_r. split.
  - destruct v; simpl; try discriminate; eauto.
  - by intros [-> | [s ->]].
Qed.

Lemma enum_property_nil name x y v :
  property_errors name (PropertySchema [T_string] None (Some [x; y]) None None) v = []
  ↔ v = VStr x ∨ v = VStr y.
Proof.
  unfold property_errors. cbn [p_type p_enum p_minimum p_maximum existsb app].
  rewrite !orb_false_r, app_nil_r. split.
  - destruct v as [| | | |s| |]; simpl; try discriminate.
    destruct (String.eqb_spec s x) as [->|_]; [by left|].
    destruct (String.eqb_spec s y) as [->|_]; [by right|]. discriminate.
  - intros [-> | ->]; simpl; rewrite String.eqb_refl; [done|].
    by rewrite orb_true_r.
Qed.

Lemma properties_errors_nil_iff props (d : gmap string value) :
  properties_errors props d = []
  ↔ ∀ name sub v, (name, sub) ∈ props → d !! name = Some v →
                  property_errors name sub v = [].
Proof.
  split.
  - intros H name sub v. by apply properties_errors_nil.
  - unfold properties_errors.
    induction props as [|[name sub] props IH]; intros H; [done|].
    simpl. rewrite IH.
    + rewrite app_nil_r. destruct (d !! name) as [v|] eqn:E; [|done].
      apply H; [by left | done].
    + intros name' sub' v Hin. apply H. by right.
Qed.

Lemma additional_errors_nil props (d : gmap string value) :
  (∀ k, is_Some (d !! k) → k ∈ props.*1) →
  additional_errors false props d = [].
Proof.
  intros Hdom. unfold additional_errors.
  destruct (extras props d) as [|k ks] eqn:E; [done|].
  assert (k ∈ extras props d) as Hk by (rewrite E; by left).
  apply elem_of_extras in Hk as [Hsome Hnot]. destruct Hnot. by apply Hdom.
Qed.

Lemma iter_errors_nil_conforms d :
  iter_errors transaction_schema (VDict d) = [] ↔ conforms d.
Proof.
  rewrite iter_errors_object. split.
  - intros H. apply app_eq_nil in H as [Hreq H].
    apply app_eq_nil in H as [Hprops Hadd].
    apply required_errors_nil in Hreq. rewrite Forall_forall in Hreq.
    pose proof (proj1 (properties_errors_nil_iff _ _) Hprops) as Hprop.
    clear Hprops.
    assert (∀ name sub, (name, sub) ∈ properties transaction_schema →
              ∃ v, d !! name = Some v ∧ property_errors name sub v = []) as Hfield.
    { intros name sub Hin.
      destruct (Hreq name) as [v Hv].
      - apply (list_elem_of_fmap_2 fst) in Hin. exact Hin.
      - exists v. split; [done|]. by eapply Hprop. }
    unfold conforms. split; [|repeat split].
    + intros k. split; [|apply Hreq].
      intros Hk. destruct (decide (k ∈ field_names)) as [|Hnot]; [done|].
      by destruct (additional_errors_not_nil (properties transaction_schema)
                     d k Hk Hnot Hadd).
    + destruct (Hfield "transactionId" _ ltac:(listed)) as (v & Hv & He).
      apply string_property_nil in He as [s ->]. eauto.
    + destruct (Hfield "amount" _ ltac:(listed)) as (v & Hv & He).
      apply number_property_nil in He. eauto.
    + destruct (Hfield "currency" _ ltac:(listed)) as (v & Hv & He).
      apply string_property_nil in He as [s ->]. eauto.
    + destruct (Hfield "merchantName" _ ltac:(listed)) as (v & Hv & He).
      apply string_or_null_property_nil in He as [-> | [s ->]]; eauto.
    + destruct (Hfield "timestamp" _ ltac:(listed)) as (v & Hv & He).
      apply string_property_nil in He as [s ->]. eauto.
    + destruct (Hfield "type" _ ltac:(listed)) as (v & Hv & He).
      apply enum_property_nil in He as [-> | ->]; eauto.
    + destruct (Hfield "subType" _ ltac:(listed)) as (v & Hv & He).
      apply string_property_nil in He as [s ->]. eauto.
    + destruct (Hfield "status" _ ltac:(listed)) as (v & Hv & He).
      apply enum_property_nil in He as [-> | ->]; eauto.
    + destruct (Hfield "categoryId" _ ltac:(listed)) as (v & Hv & He).
      apply categoryId_errors_nil in He as (n & Hn & Hrange). eauto.
    + destruct (Hfield "description" _ ltac:(listed)) as (v & Hv & He).
      apply string_property_nil in He as [s ->]. eauto.
  - intros (Hdom & Htid & Hamount & Hcur & Hmerchant & Hts & Htype & Hsub
            & Hstatus & Hcat & Hdescr).
    rewrite (proj2 (required_errors_nil _ d)); cycle 1.
    { apply Forall_forall. intros k Hk. by apply Hdom. }
    rewrite (additional_errors_nil _ d) by (intros k Hk; by apply Hdom).
    rewrite app_nil_r, app_nil_l. apply properties_errors_nil_iff.
    intros name sub v Hin Hv. simpl in Hin.
    repeat (apply elem_of_cons in Hin as [[= -> ->]|Hin]).
    + destruct Htid as [s Hs]. apply string_property_nil. exists s. congruence.
    + destruct Hamount as (v' & Hv' & Hnum). apply number_property_nil. congruence.
    + destruct Hcur as [s Hs]. apply string_property_nil. exists s. congruence.
    + apply string_or_null_property_nil.
      destruct Hmerchant as [H | [s H]]; [left | right; exists s]; congruence.
    + destruct Hts as [s Hs]. apply string_property_nil. exists s. congruence.
    + apply enum_property_nil. destruct Htype as [H | H]; [left | right]; congruence.
    + destruct Hsub as [s Hs]. apply string_property_nil. exists s. congruence.
    + apply enum_property_nil. destruct Hstatus as [H | H]; [left | right]; congruence.
    + destruct Hcat as (v' & n & Hv' & Hn & Hrange). apply categoryId_errors_nil.
      exists n. split; [congruence | done].
    + destruct Hdescr as [s Hs]. apply string_property_nil. exists s. congruence.
    + by apply elem_of_nil in Hin.
Qed.

(** X9. The schema validator accepts a record exactly when it is an object
    with the ten fields and no other, each of the type the table gives:
    strings for the identifiers and texts, a number for [amount], a string
    or null for [merchantName], any string at all for [timestamp] (its
    format is not checked), Debit or Credit for [type], Pending or Booked
    for [status], an integer from 1 to 20 for [categoryId]. *)
Theorem accepted_iff_conforms
    (best_match : validation_error → list validation_error → validation_error)
    (message : validation_error → string)
    (transaction : value) (w : world) :
  accepted (validate_transaction_structure best_match message transaction w)
  ↔ ∃ d, transaction = VDict d ∧ conforms d.
Proof.
  split.
  - intros Hacc. apply accepted_no_errors in Hacc.
    pose proof (iter_errors_nil _ Hacc) as (d & -> & _).
    exists d. split; [done|]. by apply iter_errors_nil_conforms.
  - intros (d & -> & Hd). apply iter_errors_nil_conforms in Hd.
    unfold accepted.
    by rewrite validate_transaction_structure_no_errors.
Qed.

Lemma accepted_iff_conforms_witness :
  accepted (validate_transaction_structure first_error no_message
              sample_transaction (empty_world []))
  ∧ ∃ d, sample_transaction = VDict d ∧ conforms d.
Proof.
  assert (accepted (validate_transaction_structure first_error no_message
                      sample_transaction (empty_world []))) as H by reflexivity.
  split; [exact H|].
  exact (proj1 (accepted_iff_conforms first_error no_message
                  sample_transaction (empty_world [])) H).
Defined.

(** ** Schema first, ordering second *)

Lemma conforms_status d :
  conforms d → has_status "Pending" (VDict d) ∨ has_status "Booked" (VDict d).
Proof.
  intros (_ & _ & _ & _ & _ & _ & _ & _ & [H|H] & _); [left | right];
    by exists d.
Qed.

Lemma elem_of_subsequence s t ts : t ∈ subsequence s ts → t ∈ ts.
Proof.
  unfold subsequence. rewrite !list_elem_of_In, List.filter_In. tauto.
Qed.

Section SchemaThenOrdering.

Variable fromisoformat : string → option datetime.

Lemma parsed_timestamp_string d s w :
  d !! "timestamp" = Some (VStr s) →
  parsed_timestamp fromisoformat (VDict d) w =
    (match fromisoformat (replace_Z s) with
     | Some t => Return t
     | None => Raise ValueError
     end, w).
Proof.
  intros Hd. unfold parsed_timestamp.
  erewrite bind_Return by (simpl; by rewrite Hd).
  erewrite bind_Return by reflexivity.
  unfold fromisoformat_call. by destruct (fromisoformat _).
Qed.

(** One comparison between records that passed the schema. *)
Lemma descending_at_outcome group i w :
  Forall (λ t, ∃ d, t = VDict d ∧ conforms d) group →
  (Z.of_nat i < len group - 1)%Z →
  outcome_in ordering_exception (descending_at fromisoformat group i w).
Proof.
  intros Hgroup Hi. unfold len in Hi.
  destruct (lookup_lt_is_Some_2 group i) as [a Ha]; [lia|].
  destruct (lookup_lt_is_Some_2 group (S i)) as [b Hb]; [lia|].
  pose proof (Forall_lookup_1 _ _ _ _ Hgroup Ha) as (da & -> & Hca).
  pose proof (Forall_lookup_1 _ _ _ _ Hgroup Hb) as (db & -> & Hcb).
  destruct Hca as (_ & _ & _ & _ & _ & [sa Hsa] & _).
  destruct Hcb as (_ & _ & _ & _ & _ & [sb Hsb] & _).
  unfold descending_at.
  erewrite bind_Return by (unfold getitem_index; by rewrite Ha).
  destruct (fromisoformat (replace_Z sa)) as [t1|] eqn:E1; cycle 1.
  { erewrite bind_Raise
      by (erewrite parsed_timestamp_string by done; by rewrite E1).
    right. by left. }
  erewrite bind_Return
    by (erewrite parsed_timestamp_string by done; by rewrite E1).
  erewrite bind_Return
    by (unfold getitem_index; rewrite Nat.add_1_r; by rewrite Hb).
  destruct (fromisoformat (replace_Z sb)) as [t2|] eqn:E2; cycle 1.
  { erewrite bind_Raise
      by (erewrite parsed_timestamp_string by done; by rewrite E2).
    right. by left. }
  erewrite bind_Return
    by (erewrite parsed_timestamp_string by done; by rewrite E2).
  unfold ge_call. destruct (datetime_ge t1 t2) as [[]|].
  - by erewrite bind_Return by reflexivity.
  - erewrite bind_Return by reflexivity. by left.
  - erewrite bind_Raise by reflexivity. right. by right.
Qed.

Lemma group_loop_outcome group w :
  Forall (λ t, ∃ d, t = VDict d ∧ conforms d) group →
  outcome_in ordering_exception
    (for_each (range (len group - 1)) (descending_at fromisoformat group) w).
Proof.
  intros Hgroup. apply outcome_in_for_each; [apply preserves_descending_at|].
  intros i Hi. apply elem_of_range in Hi. by apply descending_at_outcome.
Qed.

(** X10. On a list whose records all passed the schema validator, the
    ordering validator returns or raises one of three things: a failed
    assertion, [ValueError] (a timestamp that does not read) or [TypeError]
    (a naive timestamp against an aware one).  No [KeyError],
    [AttributeError] or [IndexError] is possible. *)
Theorem schema_valid_list_outcomes
    (best_match : validation_error → list validation_error → validation_error)
    (message : validation_error → string)
    (ts : list value) (w0 : world) (log : list log_record) :
  Forall (λ t, accepted (validate_transaction_structure best_match message t w0)) ts →
  outcome_in ordering_exception
    (validate_transaction_ordering fromisoformat (World log ts)).
Proof.
  intros Hacc.
  assert (Forall (λ t, ∃ d, t = VDict d ∧ conforms d) ts) as Hconf.
  { eapply Forall_impl; [exact Hacc|]. intros t Ht.
    apply accepted_no_errors in Ht.
    pose proof (iter_errors_nil _ Ht) as (d & -> & _).
    exists d. split; [done|]. by apply iter_errors_nil_conforms. }
  assert (Forall has_status_field ts) as Hfields.
  { eapply Forall_impl; [exact Hconf|]. intros t (d & -> & Hd).
    destruct (conforms_status d Hd); by eapply has_status_has_field. }
  assert (∀ s, Forall (λ t, ∃ d, t = VDict d ∧ conforms d) (subsequence s ts))
    as Hsub.
  { intros s. apply Forall_forall. intros t Ht%elem_of_subsequence.
    rewrite Forall_forall in Hconf. by apply Hconf. }
  assert (outcome_in ordering_exception
            (ordering_checks fromisoformat (World log ts))) as Hchecks.
  { destruct (decide (length ts ≤ 1)%nat) as [Hshort|Hlong].
    - by rewrite ordering_checks_short.
    - rewrite ordering_checks_long by (simpl; lia). simpl.
      erewrite bind_Return by (by apply with_status_Return).
      erewrite bind_Return by (by apply with_status_Return).
      apply outcome_in_bind; [apply preserves_placement_check| |].
      + eapply outcome_in_weaken; [|by apply placement_check_outcome].
        intros e ->. by left.
      + intros _ _. unfold monotonicity_check. cbn [for_each].
        apply outcome_in_bind;
          [apply preserves_for_each, preserves_descending_at
          |by apply group_loop_outcome|].
        intros _ _.
        apply outcome_in_bind;
          [apply preserves_for_each, preserves_descending_at
          |by apply group_loop_outcome|].
        done. }
  rewrite validate_transaction_ordering_unfold.
  unfold outcome_in in *.
  destruct (ordering_checks fromisoformat (World log ts)) as [[[]|e] w']; [done|].
  simpl in Hchecks. destruct e; simpl; try done.
Qed.

End SchemaThenOrdering.

Lemma schema_valid_list_outcomes_witness :
  let ts := [sample_transaction; sample_transaction] in
  Forall (λ t, accepted (validate_transaction_structure first_error no_message
                           t (empty_world []))) ts
  ∧ outcome_in ordering_exception
      (validate_transaction_ordering read_timestamp (World [] ts)).
Proof.
  intros ts.
  assert (Forall (λ t, accepted (validate_transaction_structure first_error
                                   no_message t (empty_world []))) ts) as H.
  { apply List.Forall_cons; [reflexivity|].
    apply List.Forall_cons; [reflexivity|]. apply List.Forall_nil. }
  split; [exact H|].
  exact (schema_valid_list_outcomes read_timestamp first_error no_message
           ts (empty_world []) [] H).
Defined.

(** * The test cases *)

(** ** Pieces of a test body *)

Lemma except_AssertionError_unfold prefix body w :
  except_AssertionError prefix body w =
    match body w with
    | (Raise (AssertionError msg), w') =>
        (Raise (AssertionError msg),
         World (logged w' ++ [LogError (prefix ++ msg)%string]) (transactions w'))
    | outcome => outcome
    end.
Proof.
  unfold except_AssertionError, try_except.
  destruct (body w) as [[[]|[]] w']; done.
Qed.

Lemma except_AssertionError_accepted prefix body w :
  accepted (except_AssertionError prefix body w) ↔ accepted (body w).
Proof.
  rewrite except_AssertionError_unfold. unfold accepted.
  destruct (body w) as [[[]|[]] w']; done.
Qed.

Lemma assert_Return b w r w' :
  assert_ b w = (Return r, w') → b = true ∧ w' = w.
Proof. destruct b; [by intros [= _ <-] | discriminate]. Qed.

Lemma customers_getitem_known key customer_id w :
  CUSTOMERS !! key = Some customer_id →
  customers_getitem key w = (Return (VStr customer_id), w).
Proof. intros H. unfold customers_getitem. by rewrite H. Qed.

(** The record is an object that conforms to the schema. *)
Lemma no_errors_conforming t :
  iter_errors transaction_schema t = [] ↔ ∃ d, t = VDict d ∧ conforms d.
Proof.
  split.
  - intros H. pose proof (iter_errors_nil _ H) as (d & -> & _).
    exists d. split; [done|]. by apply iter_errors_nil_conforms.
  - intros (d & -> & Hd). by apply iter_errors_nil_conforms.
Qed.

Section StructureLoop.

Variable best_match : validation_error → list validation_error → validation_error.
Variable message : validation_error → string.

Lemma validate_transaction_structure_Return t w r w' :
  validate_transaction_structure best_match message t w = (Return r, w') →
  iter_errors transaction_schema t = [] ∧ w' = w.
Proof.
  intros H. destruct (iter_errors transaction_schema t) as [|e es] eqn:E.
  - rewrite validate_transaction_structure_no_errors in H by done.
    by injection H as _ <-.
  - destruct (validate_transaction_structure_errors best_match message t w)
      as [err Herr]; [by rewrite E|]. congruence.
Qed.

(** The loop over the records passes exactly when none has an error, and
    then it has changed nothing. *)
Lemma structure_loop_Return l w w' :
  for_each l (validate_transaction_structure best_match message) w
    = (Return (), w')
  ↔ Forall (λ t, iter_errors transaction_schema t = []) l ∧ w' = w.
Proof.
  revert w'. induction l as [|t l IH]; intros w'; simpl.
  - split; [by intros [= <-] | by intros [_ ->]].
  - split.
    + intros H. apply bind_inv_Return in H as ([] & w1 & Ht & H).
      apply validate_transaction_structure_Return in Ht as [Ht ->].
      apply IH in H as [Hl ->]. split; [by constructor | done].
    + intros [Hall ->]. inversion Hall as [|? ? Ht Hl]; subst.
      erewrite bind_Return
        by by apply validate_transaction_structure_no_errors.
      by apply IH.
Qed.

(** The loop stops at the first record with an error, with the outcome of
    the validator on that record. *)
Lemma structure_loop_first_error pre t post w :
  Forall (λ t, iter_errors transaction_schema t = []) pre →
  iter_errors transaction_schema t ≠ [] →
  for_each (pre ++ t :: post) (validate_transaction_structure best_match message) w
    = validate_transaction_structure best_match message t w.
Proof.
  intros Hpre Ht. induction Hpre as [|x pre Hx _ IH]; simpl.
  - destruct (validate_transaction_structure_errors best_match message t w Ht)
      as [err Herr].
    by erewrite bind_Raise by exact Herr.
  - by erewrite bind_Return
      by by apply validate_transaction_structure_no_errors.
Qed.

End StructureLoop.

(** ** Ordering of records that passed the schema *)

Lemma conforming_statuses l :
  Forall (λ t, ∃ d, t = VDict d ∧ conforms d) l →
  Forall (λ t, has_status "Pending" t ∨ has_status "Booked" t) l.
Proof.
  intros H. eapply Forall_impl; [exact H|].
  intros t (d & -> & Hd). by apply conforms_status.
Qed.

Lemma non_increasing_short fromisoformat group :
  (length group ≤ 1)%nat → non_increasing fromisoformat group.
Proof.
  intros Hlen i a b _ Hb. apply lookup_lt_Some in Hb. lia.
Qed.

Lemma pending_prefix_short l :
  Forall (λ t, has_status "Pending" t ∨ has_status "Booked" t) l →
  (length l ≤ 1)%nat → pending_prefix l.
Proof.
  intros Hall Hlen. destruct l as [|t [|t' l]]; [| |simpl in Hlen; lia].
  - exists [], []. by repeat split.
  - inversion Hall as [|? ? [Ht|Ht] _]; subst.
    + exists [t], []. split; [done|]. split; by repeat constructor.
    + exists [], [t]. split; [done|]. split; by repeat constructor.
Qed.

Lemma conforming_ordering_checks fromisoformat l log :
  Forall (λ t, ∃ d, t = VDict d ∧ conforms d) l →
  ordering_checks fromisoformat (World log l) = (Return (), World log l)
  ↔ pending_prefix l
    ∧ non_increasing fromisoformat (subsequence "Pending" l)
    ∧ non_increasing fromisoformat (subsequence "Booked" l).
Proof.
  intros Hconf. pose proof (conforming_statuses l Hconf) as Hstatus.
  destruct (decide (length l ≤ 1)%nat) as [Hshort|Hlong].
  - rewrite ordering_checks_short by done. split; [intros _|done].
    split; [by apply pending_prefix_short|].
    split; apply non_increasing_short;
      pose proof (subsequence_length_le "Pending" l);
      pose proof (subsequence_length_le "Booked" l); lia.
  - rewrite ordering_checks_Return_iff by lia.
    rewrite <- leading_pending_iff_first.
    rewrite (leading_pending_iff_prefix l Hstatus).
    split; [tauto|]. intros (Hprefix & Hp & Hb). repeat split; try done.
    eapply Forall_impl; [exact Hstatus|].
    intros t [H|H]; by eapply has_status_has_field.
Qed.

(** ** test_get_all_transactions_normal_customer *)

Section NormalCustomer.

Variable BASE_URL : option string.
Variable HEADERS : gmap string (option string).
Variable requests_get : request → response.
Variable fromisoformat : string → option datetime.
Variable best_match : validation_error → list validation_error → validation_error.
Variable message : validation_error → string.

(** The body of the test once the response is a JSON list of at most five
    records with status 200 and the JSON content type. *)
Lemma normal_customer_body l w :
  status_code (normal_customer_response BASE_URL HEADERS requests_get) = 200%Z →
  content_type (normal_customer_response BASE_URL HEADERS requests_get)
    = Some "application/json"%string →
  json_body (normal_customer_response BASE_URL HEADERS requests_get)
    = Some (VList l) →
  (length l ≤ 5)%nat →
  test_get_all_transactions_normal_customer BASE_URL HEADERS requests_get
    fromisoformat best_match message w
  = except_AssertionError "❌ Assertion failed "
      (for_each l (validate_transaction_structure best_match message);;
       call_validate_transaction_ordering fromisoformat l;;
       log_info "✅ Test passed: test_get_all_transactions_normal_customer") w.
Proof.
  intros Hcode Htype Hjson Hlen.
  unfold test_get_all_transactions_normal_customer.
  rewrite !except_AssertionError_unfold. f_equal.
  erewrite bind_Return by (by apply customers_getitem_known).
  fold (normal_customer_response BASE_URL HEADERS requests_get).
  rewrite Hcode, Htype.
  erewrite bind_Return by reflexivity.
  erewrite bind_Return by reflexivity.
  erewrite bind_Return by (unfold json_call; by rewrite Hjson).
  erewrite bind_Return by reflexivity.
  destruct (Z.leb_spec (len l) 5) as [_|Hgt]; [|unfold len in Hgt; lia].
  by erewrite bind_Return by reflexivity.
Qed.

End NormalCustomer.

Lemma accepted_Return (outcome : result () * world) :
  accepted outcome → ∃ w', outcome = (Return (), w').
Proof. destruct outcome as [[[]|e] w']; [eauto | discriminate]. Qed.

Section NormalCustomerTest.

Variable BASE_URL : option string.
Variable HEADERS : gmap string (option string).
Variable requests_get : request → response.
Variable fromisoformat : string → option datetime.
Variable best_match : validation_error → list validation_error → validation_error.
Variable message : validation_error → string.

Local Abbreviation the_response :=
  (normal_customer_response BASE_URL HEADERS requests_get).
Local Abbreviation the_test :=
  (test_get_all_transactions_normal_customer BASE_URL HEADERS requests_get
     fromisoformat best_match message).

(** X11. The test passes exactly when the response has status 200 and the
    content type [application/json], its body is a JSON list of at most five
    records, every record conforms to the schema, the Pending records form a
    prefix, and the Pending and the Booked records each have non-increasing
    timestamps. *)
Theorem normal_customer_test_passes_iff (w : world) :
  accepted (the_test w)
  ↔ status_code the_response = 200%Z
    ∧ content_type the_response = Some "application/json"%string
    ∧ ∃ l, json_body the_response = Some (VList l)
           ∧ (length l ≤ 5)%nat
           ∧ Forall (λ t, ∃ d, t = VDict d ∧ conforms d) l
           ∧ pending_prefix l
           ∧ non_increasing fromisoformat (subsequence "Pending" l)
           ∧ non_increasing fromisoformat (subsequence "Booked" l).
Proof.
  split.
  - intros Hacc.
    apply except_AssertionError_accepted, accepted_Return in Hacc as [w' H].
    apply bind_inv_Return in H as (customer_id & w1 & Hid & H).
    rewrite (customers_getitem_known "Customer2"
               "746c51bc-bdb9-44d2-9a3e-c4715bc91ee4" w eq_refl) in Hid.
    injection Hid as <- <-.
    fold the_response in H.
    apply bind_inv_Return in H as ([] & w2 & Hcode & H).
    apply assert_Return in Hcode as [Hcode%Z.eqb_eq ->].
    apply bind_inv_Return in H as ([] & w3 & Htype & H).
    apply assert_Return in Htype as [Htype%bool_decide_eq_true ->].
    apply bind_inv_Return in H as (data & w4 & Hjson & H).
    unfold json_call in Hjson.
    destruct (json_body the_response) as [body|] eqn:Ebody; [|discriminate].
    injection Hjson as <- <-.
    apply bind_inv_Return in H as (l & w5 & Hlist & H).
    destruct body as [| | | | |items|]; try discriminate.
    injection Hlist as <- <-.
    apply bind_inv_Return in H as ([] & w6 & Hlen & H).
    apply assert_Return in Hlen as [Hlen%Z.leb_le ->].
    apply bind_inv_Return in H as ([] & w7 & Hloop & H).
    apply structure_loop_Return in Hloop as [Hvalid ->].
    apply bind_inv_Return in H as ([] & w8 & Horder & _).
    unfold call_validate_transaction_ordering in Horder.
    apply validate_transaction_ordering_Return in Horder.
    pose proof Horder as E. apply preserves_ordering_checks in E as ->.
    assert (Forall (λ t, ∃ d, t = VDict d ∧ conforms d) items) as Hconf.
    { eapply Forall_impl; [exact Hvalid|]. intros t. apply no_errors_conforming. }
    apply conforming_ordering_checks in Horder; [|done].
    repeat split; try done. exists items. unfold len in Hlen.
    repeat split; try done; [lia | apply Horder..].
  - intros (Hcode & Htype & l & Hjson & Hlen & Hconf & Horder).
    rewrite (normal_customer_body _ _ _ _ _ _ l) by done.
    apply except_AssertionError_accepted.
    erewrite bind_Return; cycle 1.
    { apply structure_loop_Return. split; [|done].
      eapply Forall_impl; [exact Hconf|]. intros t. apply no_errors_conforming. }
    erewrite bind_Return; cycle 1.
    { unfold call_validate_transaction_ordering.
      rewrite validate_transaction_ordering_unfold.
      by rewrite (proj2 (conforming_ordering_checks fromisoformat l _ Hconf)). }
    done.
Qed.

(** X12. When the response is well-formed and its records pass the schema
    but the ordering checks fail an assertion, the test raises that
    assertion failure and the same error line is logged twice: once by the
    ordering validator and once more by the test's own handler. *)
Theorem normal_customer_ordering_failure_logged_twice
    (l : list value) (msg : string) (w w1 : world) :
  status_code the_response = 200%Z →
  content_type the_response = Some "application/json"%string →
  json_body the_response = Some (VList l) →
  (length l ≤ 5)%nat →
  Forall (λ t, ∃ d, t = VDict d ∧ conforms d) l →
  ordering_checks fromisoformat (World (logged w) l)
    = (Raise (AssertionError msg), w1) →
  the_test w =
    (Raise (AssertionError msg),
     World (logged w ++ [assertion_line msg; assertion_line msg]) l).
Proof.
  intros Hcode Htype Hjson Hlen Hconf Horder.
  pose proof Horder as E. apply preserves_ordering_checks in E as ->.
  rewrite (normal_customer_body _ _ _ _ _ _ l) by done.
  rewrite except_AssertionError_unfold.
  erewrite bind_Return; cycle 1.
  { apply structure_loop_Return. split; [|done].
    eapply Forall_impl; [exact Hconf|]. intros t. apply no_errors_conforming. }
  erewrite bind_Raise; cycle 1.
  { unfold call_validate_transaction_ordering.
    rewrite validate_transaction_ordering_unfold. by rewrite Horder. }
  simpl. unfold assertion_line. by rewrite <- app_assoc.
Qed.

End NormalCustomerTest.

(** ** test_transaction_structure_consistency *)

(** X13. When a record of the response does not conform to the schema, the
    test ends exactly as the schema validator does on the first such record:
    one "Schema validation failed" line and pytest's failure.  That failure
    is no [AssertionError], so the test's own handler does not run and no
    line naming the customer is written; the later records are not
    checked. *)
Theorem schema_failure_bypasses_test_handler
    (BASE_URL : option string) (HEADERS : gmap string (option string))
    (requests_get : request → response)
    (best_match : validation_error → list validation_error → validation_error)
    (message : validation_error → string)
    (customer_key customer_id : string)
    (pre post : list value) (t : value) (w : world) :
  let response := send BASE_URL HEADERS requests_get (VStr customer_id) ∅ in
  CUSTOMERS !! customer_key = Some customer_id →
  status_code response = 200%Z →
  json_body response = Some (VList (pre ++ t :: post)) →
  Forall (λ t, ∃ d, t = VDict d ∧ conforms d) pre →
  ¬ (∃ d, t = VDict d ∧ conforms d) →
  validation_failure message w
    (test_transaction_structure_consistency BASE_URL HEADERS requests_get
       best_match message customer_key w).
Proof.
  intros response Hkey Hcode Hjson Hpre Ht.
  assert (iter_errors transaction_schema t ≠ []) as Herr.
  { intros H. by apply Ht, no_errors_conforming. }
  destruct (validate_transaction_structure_errors best_match message t w Herr)
    as [err Hfail].
  exists err. unfold test_transaction_structure_consistency.
  rewrite except_AssertionError_unfold.
  erewrite bind_Return by (by apply customers_getitem_known).
  fold response. rewrite Hcode.
  erewrite bind_Return by reflexivity.
  erewrite bind_Return by (unfold json_call; by rewrite Hjson).
  erewrite bind_Return by reflexivity.
  erewrite bind_Raise; cycle 1.
  { rewrite structure_loop_first_error; [exact Hfail| |done].
    eapply Forall_impl; [exact Hpre|]. intros x. apply no_errors_conforming. }
  done.
Qed.

(** ** test_filter_exclude_pending *)

Lemma py_eq_str_false st s : py_eq_str st s = false ↔ st ≠ VStr s.
Proof.
  destruct st as [| | | |s'| |]; simpl; try (split; [discriminate | done]).
  rewrite String.eqb_neq. split; [congruence | intros H ?; apply H; congruence].
Qed.

Lemma assert_not_pending_Return t w r w' :
  assert_not_pending t w = (Return r, w') ↔ not_pending_record t ∧ r = () ∧ w' = w.
Proof.
  unfold assert_not_pending. split.
  - intros H. apply bind_inv_Return in H as (st & w1 & Hst & H).
    apply getitem_Return in Hst as [(d & -> & Hd) ->].
    apply assert_Return in H as [Hne ->]. destruct r.
    repeat split. exists d, st. repeat split; [done|].
    apply py_eq_str_false. by apply negb_true_iff.
  - intros ((d & st & -> & Hd & Hne) & -> & ->).
    erewrite bind_Return by (simpl; by rewrite Hd).
    apply py_eq_str_false in Hne. by rewrite Hne.
Qed.

Lemma assert_not_pending_Pending t w :
  has_status "Pending" t →
  assert_not_pending t w = (Raise (AssertionError ""), w).
Proof.
  intros (d & -> & Hd). unfold assert_not_pending.
  by erewrite bind_Return by (simpl; by rewrite Hd).
Qed.

Lemma preserves_assert_not_pending t : preserves (assert_not_pending t).
Proof. unfold assert_not_pending. preserves_tac. Qed.

(** The loop of the test writes its success line once per record. *)
Lemma exclude_pending_loop_pass l w :
  Forall not_pending_record l →
  for_each l (λ tx, assert_not_pending tx;;
                    log_info "✅ Test passed: test_filter_exclude_pending") w
  = (Return (),
     World (logged w ++ replicate (length l) exclude_pending_passed)
           (transactions w)).
Proof.
  intros Hall. revert w. induction Hall as [|t l Ht _ IH]; intros w.
  - simpl. unfold mret, M_ret, ret. rewrite app_nil_r. by destruct w.
  - cbn [for_each].
    erewrite bind_Return; cycle 1.
    { erewrite bind_Return by (by apply assert_not_pending_Return). reflexivity. }
    rewrite IH. simpl. by rewrite <- app_assoc.
Qed.

Lemma exclude_pending_loop_fail pre t post w :
  Forall not_pending_record pre →
  has_status "Pending" t →
  for_each (pre ++ t :: post)
    (λ tx, assert_not_pending tx;;
           log_info "✅ Test passed: test_filter_exclude_pending") w
  = (Raise (AssertionError ""),
     World (logged w ++ replicate (length pre) exclude_pending_passed)
           (transactions w)).
Proof.
  intros Hpre Ht. revert w. induction Hpre as [|x pre Hx _ IH]; intros w.
  - simpl. erewrite bind_Raise; cycle 1.
    { erewrite bind_Raise by (by apply assert_not_pending_Pending). reflexivity. }
    rewrite app_nil_r. by destruct w.
  - cbn [for_each app].
    erewrite bind_Return; cycle 1.
    { erewrite bind_Return by (by apply assert_not_pending_Return). reflexivity. }
    rewrite IH. simpl. by rewrite <- app_assoc.
Qed.

Lemma exclude_pending_loop_Return l w w' :
  for_each l (λ tx, assert_not_pending tx;;
                    log_info "✅ Test passed: test_filter_exclude_pending") w
  = (Return (), w') →
  Forall not_pending_record l.
Proof.
  revert w. induction l as [|t l IH]; intros w H; [constructor|].
  cbn [for_each] in H.
  apply bind_inv_Return in H as ([] & w1 & Ht & H).
  apply bind_inv_Return in Ht as ([] & w2 & Ht & _).
  apply assert_not_pending_Return in Ht as (Ht & _).
  constructor; [done|]. by eapply IH.
Qed.

Section FilterTests.

Variable BASE_URL : option string.
Variable HEADERS : gmap string (option string).
Variable requests_get : request → response.

Local Abbreviation exclude_response :=
  (send BASE_URL HEADERS requests_get
     (VStr "746c51bc-bdb9-44d2-9a3e-c4715bc91ee4")
     {[ "includePending" := VBool false ]}).
Local Abbreviation exclude_test :=
  (test_filter_exclude_pending BASE_URL HEADERS requests_get).

Lemma exclude_pending_body l w :
  status_code exclude_response = 200%Z →
  json_body exclude_response = Some (VList l) →
  exclude_test w =
    except_AssertionError "❌ Assertion failed "
      (for_each l (λ tx, assert_not_pending tx;;
                         log_info "✅ Test passed: test_filter_exclude_pending")) w.
Proof.
  intros Hcode Hjson. unfold test_filter_exclude_pending.
  rewrite !except_AssertionError_unfold. f_equal.
  erewrite bind_Return by (by apply customers_getitem_known).
  rewrite Hcode.
  erewrite bind_Return by reflexivity.
  erewrite bind_Return by (unfold json_call; by rewrite Hjson).
  by erewrite bind_Return by reflexivity.
Qed.

(** X14. With status 200 and a JSON list as body, the test passes exactly
    when every record has a [status] that is not Pending, and then its
    success line has been logged once per record: not at all for an empty
    list. *)
Theorem exclude_pending_test_passes (l : list value) (w : world) :
  status_code exclude_response = 200%Z →
  json_body exclude_response = Some (VList l) →
  (accepted (exclude_test w) → Forall not_pending_record l)
  ∧ (Forall not_pending_record l →
     exclude_test w =
       (Return (),
        World (logged w ++ replicate (length l) exclude_pending_passed)
              (transactions w))).
Proof.
  intros Hcode Hjson. rewrite (exclude_pending_body l) by done. split.
  - intros Hacc.
    apply except_AssertionError_accepted, accepted_Return in Hacc as [w' H].
    by eapply exclude_pending_loop_Return.
  - intros Hall. rewrite except_AssertionError_unfold.
    by rewrite exclude_pending_loop_pass.
Qed.

(** X15. When the first Pending record comes after [k] records that are not
    Pending, the log receives [k] success lines and then the error line, and
    the test raises the assertion failure. *)
Theorem exclude_pending_test_fails_after_successes
    (pre post : list value) (t : value) (w : world) :
  status_code exclude_response = 200%Z →
  json_body exclude_response = Some (VList (pre ++ t :: post)) →
  Forall not_pending_record pre →
  has_status "Pending" t →
  exclude_test w =
    (Raise (AssertionError ""),
     World (logged w ++ replicate (length pre) exclude_pending_passed
                     ++ [assertion_line ""])
           (transactions w)).
Proof.
  intros Hcode Hjson Hpre Ht.
  rewrite (exclude_pending_body (pre ++ t :: post)) by done.
  rewrite except_AssertionError_unfold.
  rewrite exclude_pending_loop_fail by done.
  simpl. unfold assertion_line. by rewrite <- app_assoc.
Qed.

(** X16. With status 200 and JSON lists as the two bodies, the test passes
    exactly when the second list is not longer than the first and has no
    Pending record.  Of the first list only the length is used: the records
    of the second are not looked up in it. *)
Theorem behavior_consistency_test_passes_iff
    (customer_key customer_id : string) (l1 l2 : list value) (w : world) :
  let r1 := send BASE_URL HEADERS requests_get (VStr customer_id)
              {[ "includePending" := VBool true ]} in
  let r2 := send BASE_URL HEADERS requests_get (VStr customer_id)
              {[ "includePending" := VBool false ]} in
  CUSTOMERS !! customer_key = Some customer_id →
  status_code r1 = 200%Z → status_code r2 = 200%Z →
  json_body r1 = Some (VList l1) → json_body r2 = Some (VList l2) →
  accepted (test_filter_behavior_consistency BASE_URL HEADERS requests_get
              customer_key w)
  ↔ (length l2 ≤ length l1)%nat ∧ Forall not_pending_record l2.
Proof.
  intros r1 r2 Hkey Hcode1 Hcode2 Hjson1 Hjson2.
  unfold test_filter_behavior_consistency.
  rewrite except_AssertionError_accepted.
  erewrite bind_Return by (by apply customers_getitem_known).
  erewrite bind_Return by (by apply customers_getitem_known).
  fold r1 r2. rewrite Hcode1, Hcode2.
  erewrite bind_Return by reflexivity.
  erewrite bind_Return by reflexivity.
  erewrite bind_Return by (unfold json_call; by rewrite Hjson1).
  erewrite bind_Return by (unfold json_call; by rewrite Hjson2).
  erewrite bind_Return by reflexivity.
  erewrite bind_Return by reflexivity.
  unfold len. destruct (Z.leb_spec (Z.of_nat (length l2)) (Z.of_nat (length l1)))
    as [Hle|Hgt].
  - erewrite bind_Return by reflexivity.
    erewrite bind_Return by reflexivity.
    split.
    + intros Hacc. apply accepted_Return in Hacc as [w' H].
      apply bind_inv_Return in H as ([] & w1 & Hloop & _).
      pose proof Hloop as E.
      apply preserves_for_each in E as ->;
        [|apply preserves_assert_not_pending].
      apply for_each_Return_iff in Hloop; [|apply preserves_assert_not_pending].
      split; [lia|]. eapply Forall_impl; [exact Hloop|].
      intros t Ht. by apply assert_not_pending_Return in Ht as (? & _).
    + intros [_ Hall]. erewrite bind_Return; [done|].
      apply for_each_Return_iff; [apply preserves_assert_not_pending|].
      eapply Forall_impl; [exact Hall|].
      intros t Ht. by apply assert_not_pending_Return.
  - erewrite bind_Raise by reflexivity. split; [discriminate | lia].
Qed.

End FilterTests.

(** ** The test theorems at concrete services *)

Lemma normal_customer_test_passes_iff_witness :
  let l := [sample_with "Pending" "2025-06-05T09:00:00Z";
            sample_with "Booked" "2025-06-04T10:15:00Z"] in
  accepted (test_get_all_transactions_normal_customer None ∅ (list_service l)
              read_timestamp first_error no_message (empty_world []))
  ∧ pending_prefix l
  ∧ non_increasing read_timestamp (subsequence "Booked" l).
Proof.
  intros l.
  assert (accepted (test_get_all_transactions_normal_customer None ∅
                      (list_service l) read_timestamp first_error no_message
                      (empty_world []))) as H by (vm_compute; reflexivity).
  split; [exact H|].
  destruct (proj1 (normal_customer_test_passes_iff None ∅ (list_service l)
                     read_timestamp first_error no_message (empty_world [])) H)
    as (_ & _ & l' & Hjson & _ & _ & Hprefix & _ & Hbooked).
  injection Hjson as <-. split; [exact Hprefix | exact Hbooked].
Defined.

Lemma normal_customer_ordering_failure_logged_twice_witness :
  let l := [sample_with "Booked" "2025-06-04T10:15:00Z";
            sample_with "Pending" "2025-06-05T09:00:00Z"] in
  test_get_all_transactions_normal_customer None ∅ (list_service l)
    read_timestamp first_error no_message (empty_world [])
  = (Raise (AssertionError ""),
     World [assertion_line ""; assertion_line ""] l).
Proof.
  intros l.
  apply (normal_customer_ordering_failure_logged_twice None ∅ (list_service l)
           read_timestamp first_error no_message l "" (empty_world [])
           (World [] l)).
  - reflexivity.
  - reflexivity.
  - reflexivity.
  - simpl. lia.
  - apply List.Forall_cons; [by apply no_errors_conforming|].
    apply List.Forall_cons; [by apply no_errors_conforming|].
    apply List.Forall_nil.
  - vm_compute. reflexivity.
Defined.

Lemma schema_failure_bypasses_test_handler_witness :
  validation_failure no_message (empty_world [])
    (test_transaction_structure_consistency None ∅
       (list_service [sample_transaction; VInt 3; VNone])
       first_error no_message "Customer3" (empty_world [])).
Proof.
  apply (schema_failure_bypasses_test_handler None ∅
           (list_service [sample_transaction; VInt 3; VNone])
           first_error no_message "Customer3"
           "5723a60b-b7f5-4259-b670-43bd3be1cf90"
           [sample_transaction] [VNone] (VInt 3) (empty_world [])).
  - reflexivity.
  - reflexivity.
  - reflexivity.
  - apply List.Forall_cons; [by apply no_errors_conforming|].
    apply List.Forall_nil.
  - intros (d & Hd & _). discriminate Hd.
Defined.

Lemma exclude_pending_test_passes_witness :
  let l := [entry "Booked" "2025-06-04T10:15:00Z";
            entry "Booked" "2025-06-04T10:14:00Z"] in
  Forall not_pending_record l
  ∧ test_filter_exclude_pending None ∅ (list_service l) (empty_world [])
    = (Return (),
       World [exclude_pending_passed; exclude_pending_passed] []).
Proof.
  intros l.
  assert (Forall not_pending_record l) as H.
  { apply List.Forall_cons;
      [eexists _, _; split; [reflexivity|]; split; [reflexivity|discriminate]|].
    apply List.Forall_cons;
      [eexists _, _; split; [reflexivity|]; split; [reflexivity|discriminate]|].
    apply List.Forall_nil. }
  split; [exact H|].
  exact (proj2 (exclude_pending_test_passes None ∅ (list_service l) l
                  (empty_world []) eq_refl eq_refl) H).
Defined.

Lemma exclude_pending_test_fails_after_successes_witness :
  let pre := [entry "Booked" "2025-06-04T10:15:00Z"] in
  let t := entry "Pending" "2025-06-03T08:00:00Z" in
  test_filter_exclude_pending None ∅ (list_service (pre ++ [t]))
    (empty_world [])
  = (Raise (AssertionError ""),
     World [exclude_pending_passed; assertion_line ""] []).
Proof.
  intros pre t.
  apply (exclude_pending_test_fails_after_successes None ∅
           (list_service (pre ++ [t])) pre [] t (empty_world [])).
  - reflexivity.
  - reflexivity.
  - apply List.Forall_cons;
      [eexists _, _; split; [reflexivity|]; split; [reflexivity|discriminate]|].
    apply List.Forall_nil.
  - eexists. split; reflexivity.
Defined.

Lemma behavior_consistency_test_passes_iff_witness :
  let l := [entry "Booked" "2025-06-04T10:15:00Z"] in
  (length l ≤ length l)%nat ∧ Forall not_pending_record l
  ∧ accepted (test_filter_behavior_consistency None ∅ (list_service l)
                "Customer3" (empty_world [])).
Proof.
  intros l.
  assert (Forall not_pending_record l) as H.
  { apply List.Forall_cons;
      [eexists _, _; split; [reflexivity|]; split; [reflexivity|discriminate]|].
    apply List.Forall_nil. }
  split; [simpl; lia|]. split; [exact H|].
  apply (proj2 (behavior_consistency_test_passes_iff None ∅ (list_service l)
                  "Customer3" "5723a60b-b7f5-4259-b670-43bd3be1cf90" l l
                  (empty_world []) eq_refl eq_refl eq_refl eq_refl eq_refl)).
  split; [simpl; lia | exact H].
Defined.

(** ** Two more facts about the helpers *)

(** X17. After the replacement no [Z] is left in the string, wherever the
    [Z]s were; and a string that had none is returned as it was. *)
Theorem replace_Z_leaves_no_Z (s : string) :
  (∀ i, String.get i (replace_Z s) ≠ Some "Z"%char)
  ∧ ((∀ i, String.get i s ≠ Some "Z"%char) → replace_Z s = s).
Proof.
  split; [|apply replace_Z_without_Z].
  induction s as [|c s IH]; intros i; simpl.
  - by destruct i.
  - destruct (Ascii.eqb_spec c "Z"%char) as [->|Hne].
    + do 6 (destruct i as [|i]; [discriminate|]). apply IH.
    + destruct i as [|i]; simpl; [congruence | apply IH].
Qed.

(** X18. On any value at all the schema validator either returns with
    nothing logged and nothing changed, or reports a validation failure: one
    error line and pytest's failure.  The library's [ValidationError] never
    reaches the caller. *)
Theorem structure_validator_outcomes
    (best_match : validation_error → list validation_error → validation_error)
    (message : validation_error → string)
    (transaction : value) (w : world) :
  let outcome :=
    validate_transaction_structure best_match message transaction w in
  (outcome = (Return (), w) ∧ ∃ d, transaction = VDict d ∧ conforms d)
  ∨ (validation_failure message w outcome
     ∧ ¬ ∃ d, transaction = VDict d ∧ conforms d).
Proof.
  intros outcome. subst outcome.
  destruct (iter_errors transaction_schema transaction) as [|e es] eqn:E.
  - left. split.
    + by apply validate_transaction_structure_no_errors.
    + by apply no_errors_conforming.
  - right. split.
    + apply validate_transaction_structure_errors. by rewrite E.
    + intros H. apply no_errors_conforming in H. congruence.
Qed.

Lemma replace_Z_leaves_no_Z_witness :
  (∀ i, String.get i "10:15:00" ≠ Some "Z"%char)
  ∧ replace_Z "10:15:00" = "10:15:00"%string.
Proof.
  assert (∀ i, String.get i "10:15:00" ≠ Some "Z"%char) as H.
  { intros i. do 8 (destruct i as [|i]; [discriminate|]). discriminate. }
  split; [exact H|].
  exact (proj2 (replace_Z_leaves_no_Z "10:15:00") H).
Defined.

(** ** test_amount_sign_consistency *)

Lemma lt_zero_call_Return v b w w' :
  lt_zero_call v w = (Return b, w') → (b = true ↔ negative_amount v) ∧ w' = w.
Proof.
  destruct v as [|c|n|[q|neg|]| | |]; simpl; try discriminate;
    intros [= <- <-]; (split; [|done]).
  - split; [discriminate | done].
  - by rewrite Z.ltb_lt.
  - by rewrite Z.ltb_lt.
  - done.
  - split; [discriminate | done].
Qed.

Lemma gt_zero_call_Return v b w w' :
  gt_zero_call v w = (Return b, w') → (b = true ↔ positive_amount v) ∧ w' = w.
Proof.
  destruct v as [|c|n|[q|neg|]| | |]; simpl; try discriminate;
    intros [= <- <-]; (split; [|done]).
  - done.
  - by rewrite Z.ltb_lt.
  - by rewrite Z.ltb_lt.
  - by destruct neg.
  - split; [discriminate | done].
Qed.

Lemma negative_amount_lt_zero v w :
  negative_amount v → lt_zero_call v w = (Return true, w).
Proof.
  destruct v as [|c|n|[q|neg|]| | |]; simpl; try done.
  - intros H%Z.ltb_lt. by rewrite H.
  - intros H%Z.ltb_lt. by rewrite H.
  - by intros ->.
Qed.

Lemma positive_amount_gt_zero v w :
  positive_amount v → gt_zero_call v w = (Return true, w).
Proof.
  destruct v as [|c|n|[q|neg|]| | |]; simpl; try done.
  - by intros ->.
  - intros H%Z.ltb_lt. by rewrite H.
  - intros H%Z.ltb_lt. by rewrite H.
  - by intros ->.
Qed.

Lemma py_eq_str_true st s : py_eq_str st s = true ↔ st = VStr s.
Proof.
  destruct st as [| | | |s'| |]; simpl; try (split; discriminate).
  rewrite String.eqb_eq. split; congruence.
Qed.


Section AmountSignFacts.

Variable BASE_URL : option string.
Variable HEADERS : gmap string (option string).
Variable requests_get : request → response.
Variable format_value : value → string.

Lemma preserves_lt_zero_call v : preserves (lt_zero_call v).
Proof. destruct v as [| | |[| |]| | |]; simpl; preserves_tac. Qed.

Lemma preserves_gt_zero_call v : preserves (gt_zero_call v).
Proof. destruct v as [| | |[| |]| | |]; simpl; preserves_tac. Qed.

Lemma preserves_assert_with b msg : preserves msg → preserves (assert_with b msg).
Proof. intros Hmsg. destruct b; simpl; preserves_tac. Qed.

Lemma preserves_check_amount_sign tx :
  preserves (check_amount_sign format_value tx).
Proof.
  unfold check_amount_sign.
  pose proof preserves_lt_zero_call. pose proof preserves_gt_zero_call.
  apply preserves_bind; [preserves_tac|]. intros ty.
  destruct (py_eq_str ty "Debit").
  - repeat (apply preserves_bind; [by preserves_tac|]; intros ?).
    apply preserves_assert_with. preserves_tac.
  - apply preserves_bind; [preserves_tac|]. intros ty'.
    destruct (py_eq_str ty' "Credit"); [|preserves_tac].
    repeat (apply preserves_bind; [by preserves_tac|]; intros ?).
    apply preserves_assert_with. preserves_tac.
Qed.

Lemma assert_with_Return b msg w r w' :
  assert_with b msg w = (Return r, w') → b = true ∧ w' = w.
Proof.
  destruct b; simpl; [by intros [= _ <-]|].
  unfold mbind, M_bind, bind. destruct (msg w) as [[m|e] w1]; discriminate.
Qed.

(** One record passes the loop body exactly when its sign is consistent. *)
Lemma check_amount_sign_Return tx w :
  check_amount_sign format_value tx w = (Return (), w) ↔ sign_consistent tx.
Proof.
  unfold check_amount_sign. split.
  - intros H. apply bind_inv_Return in H as (ty & w1 & Hty & H).
    apply getitem_Return in Hty as [(d & -> & Hd) ->].
    exists d, ty. split; [done|]. split; [done|].
    destruct (py_eq_str ty "Debit") eqn:Edebit.
    + apply py_eq_str_true in Edebit as ->.
      apply bind_inv_Return in H as (a & w2 & Ha & H).
      apply getitem_Return in Ha as [(d' & [= <-] & Ha) ->].
      apply bind_inv_Return in H as (ok & w3 & Hok & H).
      apply lt_zero_call_Return in Hok as [Hok ->].
      apply assert_with_Return in H as [-> _].
      split; [|discriminate]. intros _. exists a. split; [done|]. by apply Hok.
    + apply py_eq_str_false in Edebit.
      apply bind_inv_Return in H as (ty' & w2 & Hty' & H).
      apply getitem_Return in Hty' as [(d' & [= <-] & Hd') ->].
      assert (ty' = ty) as -> by congruence.
      split; [done|]. intros ->.
      change (py_eq_str (VStr "Credit") "Credit") with true in H. cbv iota in H.
      apply bind_inv_Return in H as (a & w3 & Ha & H).
      apply getitem_Return in Ha as [(d' & [= <-] & Ha) ->].
      apply bind_inv_Return in H as (ok & w4 & Hok & H).
      apply gt_zero_call_Return in Hok as [Hok ->].
      apply assert_with_Return in H as [-> _].
      exists a. split; [done|]. by apply Hok.
  - intros (d & ty & -> & Hd & Hdebit & Hcredit).
    erewrite bind_Return by (simpl; by rewrite Hd).
    destruct (py_eq_str ty "Debit") eqn:Edebit.
    + apply py_eq_str_true in Edebit.
      destruct (Hdebit Edebit) as (a & Ha & Hneg).
      erewrite bind_Return by (simpl; by rewrite Ha).
      by erewrite bind_Return by (by apply negative_amount_lt_zero).
    + erewrite bind_Return by (simpl; by rewrite Hd).
      destruct (py_eq_str ty "Credit") eqn:Ecredit; [|done].
      apply py_eq_str_true in Ecredit.
      destruct (Hcredit Ecredit) as (a & Ha & Hpos).
      erewrite bind_Return by (simpl; by rewrite Ha).
      by erewrite bind_Return by (by apply positive_amount_gt_zero).
Qed.

(** X19. For a known customer key, status 200 and a JSON list as body, the
    test passes exactly when every record is an object with a [type], every
    Debit has an amount below zero and every Credit an amount above zero.
    A zero amount fails either way, and a record of any other type is not
    checked at all. *)
Theorem amount_sign_test_passes_iff
    (customer_key customer_id : string) (l : list value) (w : world) :
  let response := send BASE_URL HEADERS requests_get (VStr customer_id) ∅ in
  CUSTOMERS !! customer_key = Some customer_id →
  status_code response = 200%Z →
  json_body response = Some (VList l) →
  accepted (test_amount_sign_consistency BASE_URL HEADERS requests_get
              format_value customer_key w)
  ↔ Forall sign_consistent l.
Proof.
  intros response Hkey Hcode Hjson.
  unfold test_amount_sign_consistency.
  rewrite except_AssertionError_accepted.
  erewrite bind_Return by (by apply customers_getitem_known).
  fold response. rewrite Hcode.
  erewrite bind_Return by reflexivity.
  erewrite bind_Return by (unfold json_call; by rewrite Hjson).
  erewrite bind_Return by reflexivity.
  split.
  - intros Hacc. apply accepted_Return in Hacc as [w' H].
    apply bind_inv_Return in H as ([] & w1 & Hloop & _).
    pose proof Hloop as E.
    apply preserves_for_each in E as ->; [|apply preserves_check_amount_sign].
    apply for_each_Return_iff in Hloop; [|apply preserves_check_amount_sign].
    eapply Forall_impl; [exact Hloop|].
    intros t. apply check_amount_sign_Return.
  - intros Hall. erewrite bind_Return; [done|].
    apply for_each_Return_iff; [apply preserves_check_amount_sign|].
    eapply Forall_impl; [exact Hall|].
    intros t. apply check_amount_sign_Return.
Qed.


End AmountSignFacts.

Lemma amount_sign_test_passes_iff_witness :
  let l := [sample_transaction; VDict {[ "type" := VStr "Refund" ]}] in
  Forall sign_consistent l
  ∧ accepted (test_amount_sign_consistency None ∅ (list_service l)
                plain_format "Customer4" (empty_world [])).
Proof.
  intros l.
  assert (Forall sign_consistent l) as H.
  { apply List.Forall_cons.
    - eexists _, (VStr "Debit"). split; [reflexivity|]. split; [reflexivity|].
      split; [|discriminate].
      intros _. eexists. split; [reflexivity|]. simpl. lia.
    - apply List.Forall_cons; [|apply List.Forall_nil].
      eexists _, (VStr "Refund"). split; [reflexivity|]. split; [reflexivity|].
      split; discriminate. }
  split; [exact H|].
  exact (proj2 (amount_sign_test_passes_iff None ∅ (list_service l)
                  plain_format "Customer4"
                  "13ef28a8-9488-4d19-ba2f-3ff44912c5e8" l (empty_world [])
                  eq_refl eq_refl eq_refl) H).
Defined.

